(** * NeedForSpeed numerics: grids, PDE prefactors and the mixed derivative

    A shallow embedding of [src/Numerics/grid.cpp] and
    [src/Numerics/derivatives.h].

    Conventions of the embedding.
    - Where a property is about which entries a loop writes, copies or
      scales, a C++ [double] is a real number ([R]) and arithmetic is
      transcribed in the order the source writes it.  Where the value
      computed matters ([grid::uniform], [bs::pde::generator::prefactor]),
      the function is embedded a second time, in module [binary64], on the
      IEEE binary64 numbers of Rocq's primitive floats, whose [+], [-], [*]
      and [/] round to nearest even as those of a C++ [double] do.
    - A [std::vector<double>] is a [list R]; [v[i]] is stdpp's lookup and
      [v[i] = x] is stdpp's insert, guarded by a bounds test: an access
      outside the vector is undefined behaviour in C++ and is [None] here.
    - A vector size, an operator's order and a loop counter running up to
      one of them are natural numbers: the [int] counters of the source are
      exact as long as the sizes fit in an [int], and overflow of [int] is
      not modelled.  [n_points] of [grid::uniform], which may be negative,
      is a [Z].
    - A counted [for] loop is the combinator [for_loop] with the loop-carried
      variables as its state.
    - band_diagonal_matrix.h, utility.h and the definitions of the stencil
      builders are not among the sources.  [MixedDerivative] sees an operator
      through the class [Operator1D] and takes [action_2d] as a parameter;
      the models of the missing parts are marked as such.  [normal::cdf]
      of distributions.h and [std::pow] of the C library are parameters
      too. *)

From Stdlib Require Import Floats.PrimFloat.
From Stdlib Require Uint63.
From Stdlib Require Import ZArith Reals Lra Lia.
From stdpp Require Import base option list.

(** A decimal literal of a double denotes the nearest double, as it does in
    the source. *)
Set Warnings "-inexact-float".

(** ** Vectors and loops *)

Module Vec.

(** [v[i]] as an rvalue. *)
Definition read (v : list R) (i : nat) : option R := v !! i.

(** [v[i] = x]. *)
Definition write (v : list R) (i : nat) (x : R) : option (list R) :=
  if decide (i < length v)%nat then Some (<[i := x]> v) else None.

(** [std::vector<double> v(n, x)]. *)
Definition make (n : nat) (x : R) : list R := replicate n x.

End Vec.

(** Read with default zero, for the coefficients and window entries that
    fall outside a band or a vector. *)
Definition coef (d : list R) (i : nat) : R := default 0%R (d !! i).

(** [for (int i = start; i != start + count; ++i) body], threading the
    loop-carried state and stopping at the first undefined step. *)
Fixpoint for_loop {S : Type} (count start : nat)
    (body : nat -> S -> option S) (s : S) : option S :=
  match count with
  | O => Some s
  | Datatypes.S c =>
      match body start s with
      | Some s' => for_loop c (Datatypes.S start) body s'
      | None => None
      end
  end.

(** [row_upto old c n i r]: the vector [r], of length [n], has received
    [c k] at every index [k] below [i] and still holds [old] from [i] on. *)
Definition row_upto (old : list R) (c : nat -> R) (n i : nat) (r : list R)
    : Prop :=
  length r = n
  /\ (forall k, (k < i)%nat -> (k < n)%nat -> r !! k = Some (c k))
  /\ (forall k, (i <= k)%nat -> r !! k = old !! k).

(** ** grid.cpp *)

Module grid.

Local Open Scope R_scope.

(** [grid::uniform(x_min, x_max, n_points)].  A negative [n_points] makes
    the vector constructor throw ([None]).  With [n_points = 1] the source
    divides by zero, which the real numbers do not render:
    [binary64.grid.uniform] is the same function on doubles, and the values
    of the entries are settled there. *)
Definition uniform (x_min x_max : R) (n_points : Z) : option (list R) :=
  let dx := (x_max - x_min) / IZR (n_points - 1) in
  if decide (n_points < 0)%Z then None else
  let grid := Vec.make (Z.to_nat n_points) 0 in
  for_loop (Z.to_nat n_points) 0
    (fun i grid => Vec.write grid i (dx * INR i + x_min)) grid.

Module eigen.

(** [grid::eigen::uniform(x_min, x_max, n_points)].  [Eigen::VectorXd
    grid(n_points)] allocates [n_points] coefficients without initialising
    them: [storage] gives the values they happen to hold.  A negative size
    has no defined result. *)
Definition uniform (storage : nat -> R) (x_min x_max : R) (n_points : Z)
    : option (list R) :=
  let dx := (x_max - x_min) / IZR (n_points - 1) in
  if decide (n_points < 0)%Z then None else
  let grid := map storage (seq 0 (Z.to_nat n_points)) in
  for_loop (Z.to_nat n_points) 0
    (fun i grid => Vec.write grid i (dx * INR i + x_min)) grid.

End eigen.

End grid.

(** ** grid.cpp, second unit: the Black-Scholes functions

    [bs::call::implied_vol] and [bs::put::implied_vol] are left out: their
    Newton loops have no bound on the number of iterations, and the
    unqualified [abs] of their tests is resolved by the headers of the
    platform. *)

Module bs.

(** [bs::d_plus]; [std::log] is [ln], which is 0 outside the positive
    reals where the source has no number. *)
Definition d_plus (spot_price rate sigma strike tau : R) : R :=
  let tmp := ((rate + sigma * sigma / 2) * tau)%R in
  ((ln (spot_price / strike) + tmp) / (sigma * sqrt tau))%R.

(** [bs::d_minus]. *)
Definition d_minus (spot_price rate sigma strike tau : R) : R :=
  (d_plus spot_price rate sigma strike tau - sigma * sqrt tau)%R.

Module pde. Module generator.

Local Open Scope R_scope.

(** [prefactor[k][i] = x]. *)
Definition write2 (p : list (list R)) (k i : nat) (x : R)
    : option (list (list R)) :=
  row ← p !! k;
  row' ← Vec.write row i x;
  Some (<[k := row']> p).

(** [bs::pde::generator::prefactor(rate, sigma, spatial_grid)];
    [std::pow(x, 2)] is the square. *)
Definition prefactor (rate sigma : R) (spatial_grid : list R)
    : option (list (list R)) :=
  let inner := Vec.make (length spatial_grid) 0 in
  let prefactor := replicate 3 inner in
  for_loop (length spatial_grid) 0
    (fun i prefactor =>
       s ← Vec.read spatial_grid i;
       prefactor ← write2 prefactor 0 i (- rate);
       prefactor ← write2 prefactor 1 i (rate * s);
       write2 prefactor 2 i (0.5 * (sigma * s) ^ 2))
    prefactor.

(** Loop invariant of [prefactor]: three rows of the grid's length, each
    filled with its coefficient up to the loop counter. *)
Definition filled (rate sigma : R) (spatial_grid : list R)
    (i : nat) (p : list (list R)) : Prop :=
  let n := length spatial_grid in
  let zeros := Vec.make n 0 in
  exists r0 r1 r2 : list R,
    p = [r0; r1; r2]
    /\ row_upto zeros (fun _ => - rate) n i r0
    /\ row_upto zeros (fun k => rate * coef spatial_grid k) n i r1
    /\ row_upto zeros
         (fun k => 0.5 * (sigma * coef spatial_grid k) ^ 2) n i r2.

End generator. End pde.

Module call.

Section Distributions.

Local Open Scope R_scope.

(** [normal::cdf] comes from distributions.h, which is not among the
    sources: the functions that call it take it as a parameter. *)
Variable cdf : R -> R.

(** [bs::call::payoff]. *)
Definition payoff (spot_price strike : R) : R :=
  Rmax (spot_price - strike) 0.

(** [bs::call::price]: [d_p] and [d_m] are computed on both branches.  The
    threshold is the double the literal [1.0e-10] denotes,
    7737125245533627 / 2^86. *)
Definition price (spot_price rate sigma strike tau : R) : R :=
  let d_p := d_plus spot_price rate sigma strike tau in
  let d_m := d_minus spot_price rate sigma strike tau in
  if Rgt_dec tau (7737125245533627 / 2 ^ 86) then
    cdf d_p * spot_price - cdf d_m * strike * exp (- rate * tau)
  else
    payoff spot_price strike.

(** [bs::call::solution_full]. *)
Definition solution_full (spatial_grid : list R)
    (rate sigma strike tau : R) : option (list R) :=
  let result := Vec.make (length spatial_grid) 0 in
  for_loop (length spatial_grid) 0
    (fun i result =>
       s ← Vec.read spatial_grid i;
       Vec.write result i (price s rate sigma strike tau))
    result.

(** [bs::call::solution_func]: the closure reads [spatial_grid[0]]. *)
Definition solution_func (rate sigma strike : R)
    : R -> list (list R) -> option (list R) :=
  fun tau spatial_grid =>
    grid0 ← spatial_grid !! 0%nat;
    solution_full grid0 rate sigma strike tau.

End Distributions.

End call.

End bs.

(** ** The loops whose values depend on the arithmetic, on IEEE doubles *)

Module binary64.

(** [(double) z] for an [int] [z]: every [int] is a double. *)
Definition of_int (z : Z) : float :=
  if decide (z < 0)%Z
  then (- of_uint63 (Uint63.of_Z (- z)))%float
  else of_uint63 (Uint63.of_Z z).

Module Vec.

(** [v[i]] as an rvalue. *)
Definition read (v : list float) (i : nat) : option float := v !! i.

(** [v[i] = x]. *)
Definition write (v : list float) (i : nat) (x : float)
    : option (list float) :=
  if decide (i < length v)%nat then Some (<[i := x]> v) else None.

(** [std::vector<double> v(n, x)]. *)
Definition make (n : nat) (x : float) : list float := replicate n x.

End Vec.

(** [written_upto c n i r]: the vector [r], of length [n], has received
    [c k] at every index [k] below [i]. *)
Definition written_upto (c : nat -> float) (n i : nat) (r : list float)
    : Prop :=
  length r = n
  /\ forall k, (k < i)%nat -> (k < n)%nat -> r !! k = Some (c k).

Module grid.

Local Open Scope float_scope.

(** [grid::uniform(x_min, x_max, n_points)] on doubles: [n_points - 1] and
    the loop counter [i] are converted to [double] where the source
    multiplies and divides by them.  A negative [n_points] makes the vector
    constructor throw ([None]). *)
Definition uniform (x_min x_max : float) (n_points : Z)
    : option (list float) :=
  let dx := (x_max - x_min) / of_int (n_points - 1) in
  if decide (n_points < 0)%Z then None else
  let grid := Vec.make (Z.to_nat n_points) 0 in
  for_loop (Z.to_nat n_points) 0
    (fun i grid => Vec.write grid i (dx * of_int (Z.of_nat i) + x_min))
    grid.

End grid.

Module bs. Module pde. Module generator.

Section Cmath.

Local Open Scope float_scope.

(** [std::pow] belongs to the C library: the function that calls it takes
    it as a parameter. *)
Variable pow : float -> float -> float.

(** [prefactor[k][i] = x]. *)
Definition write2 (p : list (list float)) (k i : nat) (x : float)
    : option (list (list float)) :=
  row ← p !! k;
  row' ← Vec.write row i x;
  Some (<[k := row']> p).

(** [bs::pde::generator::prefactor(rate, sigma, spatial_grid)] on doubles;
    the [int] exponent 2 of [std::pow] is converted to [double]. *)
Definition prefactor (rate sigma : float) (spatial_grid : list float)
    : option (list (list float)) :=
  let inner := Vec.make (length spatial_grid) 0 in
  let prefactor := replicate 3 inner in
  for_loop (length spatial_grid) 0
    (fun i prefactor =>
       s ← Vec.read spatial_grid i;
       prefactor ← write2 prefactor 0 i (- rate);
       prefactor ← write2 prefactor 1 i (rate * s);
       write2 prefactor 2 i (0.5 * pow (sigma * s) 2))
    prefactor.

(** Loop invariant of [prefactor]: three rows of the grid's length, each
    filled with its coefficient up to the loop counter. *)
Definition filled (rate sigma : float) (spatial_grid : list float)
    (i : nat) (p : list (list float)) : Prop :=
  let n := length spatial_grid in
  exists r0 r1 r2 : list float,
    p = [r0; r1; r2]
    /\ written_upto (fun _ => - rate) n i r0
    /\ written_upto (fun k => rate * default 0 (spatial_grid !! k)) n i r1
    /\ written_upto
         (fun k => 0.5 * pow (sigma * default 0 (spatial_grid !! k)) 2)
         n i r2.

End Cmath.

End generator. End pde. End bs.

(** [std::pow(x, 2)] where the square of [x] is a double: the C library
    returns that double ([pow(1, y)] is 1 by Annex F of the C standard, and
    an error below one unit in the last place leaves no other double).  It
    stands for the library in the concrete runs below, all of which square
    1, 10, 20 or 30. *)
Definition pow_exact_square (x y : float) : float := (x * x)%float.

(** The claim on the entries of [grid::uniform], as the spec words it: entry
    [i] is [x_min + i * (x_max - x_min) / (n_points - 1)], evaluated on
    doubles. *)
Definition uniform_entry_as_claimed (x_min x_max : float) (n_points : Z)
    (i : nat) : float :=
  (x_min + of_int (Z.of_nat i) * (x_max - x_min) / of_int (n_points - 1))
    %float.

(** The claim on the third sequence of [prefactor], as the spec words it:
    [0.5 * sigma^2 * grid[i]^2], evaluated on doubles. *)
Definition third_coefficient_as_claimed (sigma s : float) : float :=
  (0.5 * (sigma * sigma) * (s * s))%float.

End binary64.

(** ** band_diagonal_matrix.h: what [MixedDerivative] needs of an operator *)

(** The two members the template arguments [T1] and [T2] must provide. *)
Class Operator1D (T : Type) := {
  order : T -> nat;
  action : T -> list R -> option (list R)
}.

(** Modelled from the spec: the contract of [action] in
    band_diagonal_matrix.h, which is not among the sources.  Applied to a
    sequence of length n, the order of the operator, [action] returns a
    sequence of length n. *)
Class LengthPreserving (T : Type) `{Operator1D T} : Prop :=
  action_length :
    forall (op : T) (v : list R),
      length v = order op ->
      exists w : list R, action op v = Some w /\ length w = order op.

Module band_diagonal_matrix.

Local Open Scope R_scope.

(** Modelled from the spec: the class [TriDiagonal] of
    band_diagonal_matrix.h, which is not among the sources.  A square
    operator of order n stored as three diagonals of length n; [order()]
    returns n; [action(v)] is the matrix-vector product computed row by row
    from the row's stored coefficients and the matching window of [v], and
    fails when the length of [v] is not n. *)
Record TriDiagonal := {
  tri_order : nat;
  lower : list R;
  diagonal : list R;
  upper : list R
}.

(** Modelled from the spec: row [i] of the matrix-vector product of a
    [TriDiagonal], whose class is not among the sources; a coefficient whose
    column falls outside the vector contributes nothing. *)
Definition tri_row (m : TriDiagonal) (v : list R) (i : nat) : R :=
  match i with
  | O => 0
  | S j => coef (lower m) i * coef v j
  end
  + coef (diagonal m) i * coef v i
  + coef (upper m) i * coef v (S i).

(** Modelled from the spec: [TriDiagonal::action], not among the sources;
    it fails when the length of [v] is not the order. *)
Definition tri_action (m : TriDiagonal) (v : list R) : option (list R) :=
  if decide (length v = tri_order m)
  then Some (map (tri_row m v) (seq 0 (tri_order m)))
  else None.

(** Modelled from the spec: [TriDiagonal] provides [order()] and
    [action()]; the class is not among the sources. *)
#[global] Instance TriDiagonal_operator : Operator1D TriDiagonal :=
  {| order := tri_order; action := tri_action |}.

End band_diagonal_matrix.

(** ** derivatives.h: the stencil builders *)

(** Modelled from the spec: the precondition of the stencil builders, whose
    definitions are not among the sources, that a grid is strictly
    increasing, as a test. *)
Fixpoint increasing (grid : list R) : bool :=
  match grid with
  | x :: (y :: _) as rest => if Rlt_dec x y then increasing rest else false
  | _ => true
  end.

Module d1dx1. Module uniform.

Import band_diagonal_matrix.
Local Open Scope R_scope.

(** Modelled from the spec: [d1dx1::uniform::c2b1], declared in
    derivatives.h and defined in a file that is not among the sources.
    Interior rows carry the central weights (-1/2h, 0, 1/2h); row 0 is the
    first-order forward difference (v[1] - v[0]) / h and the last row its
    mirror, the backward difference.  A grid of fewer than three points, or
    one that is not strictly increasing, is a precondition violation. *)
Definition c2b1 (grid : list R) : option TriDiagonal :=
  let n := length grid in
  let h := coef grid 1 - coef grid 0 in
  if decide (n < 3)%nat then None
  else if increasing grid then
    Some {| tri_order := n;
            lower := map (fun i : nat =>
                       if decide (i = 0)%nat then 0
                       else if decide (i = n - 1)%nat then - 1 / h
                       else - 1 / (2 * h)) (seq 0 n);
            diagonal := map (fun i : nat =>
                       if decide (i = 0)%nat then - 1 / h
                       else if decide (i = n - 1)%nat then 1 / h
                       else 0) (seq 0 n);
            upper := map (fun i : nat =>
                       if decide (i = 0)%nat then 1 / h
                       else if decide (i = n - 1)%nat then 0
                       else 1 / (2 * h)) (seq 0 n) |}
  else None.

End uniform. End d1dx1.

(** The operator [c2b1] builds for the grid [0, 1, 2], written out
    (lemma [c2b1_unit3_built]): the concrete operator of the examples. *)
Definition c2b1_unit3 : band_diagonal_matrix.TriDiagonal :=
  {| band_diagonal_matrix.tri_order := 3;
     band_diagonal_matrix.lower := [0; - 1 / 2; - 1]%R;
     band_diagonal_matrix.diagonal := [- 1; 0; 1]%R;
     band_diagonal_matrix.upper := [1; 1 / 2; 0]%R |}.

(** ** utility.h *)

Module utility.

(** The models of this module follow the spec of [action_2d] of utility.h,
    which is not among the sources.  The field is flattened with index
    [ix * n_y + iy].  Along the y-direction the operator is applied to every
    x-slice (the [n_y] consecutive entries of one [ix]); along the
    x-direction it is applied to every y-slice (the [n_x] entries of one
    [iy], [n_y] apart).  The spec states the precondition that the field has
    [n_x * n_y] entries and nothing about other fields: no result is given
    for them. *)

(** Modelled from the spec: the x-slice [ix] of a flattened field, read by
    the missing [action_2d]. *)
Definition slice_y (n_y : nat) (func : list R) (ix : nat) : list R :=
  take n_y (drop (ix * n_y) func).

(** Modelled from the spec: the y-slice [iy] of a flattened field, read by
    the missing [action_2d]. *)
Definition slice_x (n_x n_y : nat) (func : list R) (iy : nat) : list R :=
  map (fun ix => coef func (ix * n_y + iy)) (seq 0 n_x).

(** Modelled from the spec: the missing [action_2d] along the y-direction:
    the operator applied to every x-slice, the results laid out as the
    field is. *)
Definition along_y {T} `{Operator1D T} (n_x n_y : nat) (op : T)
    (func : list R) : option (list R) :=
  rows ← mapM (fun ix => action op (slice_y n_y func ix)) (seq 0 n_x);
  Some (concat rows).

(** Modelled from the spec: the missing [action_2d] along the x-direction:
    the operator applied to every y-slice, entry [ix * n_y + iy] of the
    result being entry [ix] of the image of slice [iy]. *)
Definition along_x {T} `{Operator1D T} (n_x n_y : nat) (op : T)
    (func : list R) : option (list R) :=
  cols ← mapM (fun iy => action op (slice_x n_x n_y func iy)) (seq 0 n_y);
  Some (flat_map
          (fun ix => map (fun iy => coef (default [] (cols !! iy)) ix)
                         (seq 0 n_y))
          (seq 0 n_x)).

(** Modelled from the spec: [action_2d] of utility.h, not among the
    sources.  The call sites pass the extent of the axis acted on first, the
    extent of the other axis second, the axis (1 for x, 2 for y) third and
    [false] fourth; the spec does not describe the fourth argument.  [None]
    on a field of another size stands for the absence of a specified
    result. *)
Definition action_2d (T : Type) (H : Operator1D T)
    (n_act n_other : nat) (dimension : Z) (flag : bool) (op : T)
    (func : list R) : option (list R) :=
  if decide (length func = n_act * n_other)%nat then
    if decide (dimension = 1)%Z then along_x n_act n_other op func
    else if decide (dimension = 2)%Z then along_y n_other n_act op func
    else None
  else None.

End utility.

(** ** derivatives.h: [MixedDerivative<T1, T2>] *)

Module MixedDerivative.

Section Members.

Local Open Scope R_scope.

Context {T1 T2 : Type} {O1 : Operator1D T1} {O2 : Operator1D T2}.

(** [action_2d] comes from utility.h, which is not among the sources: the
    member function that calls it takes it as a parameter. *)
Variable action_2d :
  forall T : Type, Operator1D T ->
    nat -> nat -> Z -> bool -> T -> list R -> option (list R).

(** The three private data members. *)
Record t := {
  d1dx1 : T1;
  d1dy1 : T2;
  prefactors : list R
}.

(** The constructor: the two members are assigned first, and [tmp] is sized
    with their orders. *)
Definition MixedDerivative (d1dx1_ : T1) (d1dy1_ : T2) : t :=
  let d1dx1 := d1dx1_ in
  let d1dy1 := d1dy1_ in
  let tmp := Vec.make (order d1dx1 * order d1dy1) 1 in
  {| d1dx1 := d1dx1; d1dy1 := d1dy1; prefactors := tmp |}.

(** A member function that assigns to [prefactors] only. *)
Definition with_prefactors (m : t) (p : list R) : t :=
  {| d1dx1 := d1dx1 m; d1dy1 := d1dy1 m; prefactors := p |}.

(** [set_prefactors(const double scalar)]. *)
Definition set_prefactors (m : t) (scalar : R) : option t :=
  p ← for_loop (length (prefactors m)) 0
         (fun i p => Vec.write p i scalar) (prefactors m);
  Some (with_prefactors m p).

(** [set_prefactors(coef_x, coef_y)].  The loop-carried state is the
    prefactor vector and the local [index]; the assignment in the inner
    loop is to [prefactors[i]], as the source has it. *)
Definition set_prefactors_xy (m : t) (coef_x coef_y : list R)
    : option t :=
  let index := 0%Z in
  '(p, index) ←
    for_loop (length coef_x) 0
      (fun i =>
         for_loop (length coef_y) 0
           (fun j '(p, index) =>
              cx ← Vec.read coef_x i;
              cy ← Vec.read coef_y j;
              p ← Vec.write p i (cx * cy);
              Some (p, (index + 1)%Z)))
      (prefactors m, index);
  Some (with_prefactors m p).

(** [set_prefactors(const std::vector<double>& factors)]. *)
Definition set_prefactors_flat (m : t) (factors : list R) : option t :=
  let index := 0%Z in
  '(p, index) ←
    for_loop (length factors) 0
      (fun i '(p, index) =>
         f ← Vec.read factors i;
         p ← Vec.write p i f;
         Some (p, (index + 1)%Z))
      (prefactors m, index);
  Some (with_prefactors m p).

(** [d2dxdy(func)]; the locals [vec_x] and [vec_y] are never used. *)
Definition d2dxdy (m : t) (func : list R) : option (list R) :=
  let n_x := order (d1dx1 m) in
  let n_y := order (d1dy1 m) in
  func ← action_2d T2 O2 n_y n_x 2 false (d1dy1 m) func;
  func ← action_2d T1 O1 n_x n_y 1 false (d1dx1 m) func;
  for_loop (n_x * n_y) 0
    (fun i func =>
       f ← Vec.read func i;
       p ← Vec.read (prefactors m) i;
       Vec.write func i (f * p))
    func.

(** The class invariant: the prefactor field has one entry per cell. *)
Definition sized (m : t) : Prop :=
  length (prefactors m) = (order (d1dx1 m) * order (d1dy1 m))%nat.

(** A call of one of the three overloads, and a sequence of such calls
    made on one instance. *)
Inductive call :=
| Scalar (scalar : R)
| Outer (coef_x coef_y : list R)
| Flat (factors : list R).

Definition do_call (c : call) (m : t) : option t :=
  match c with
  | Scalar scalar => set_prefactors m scalar
  | Outer coef_x coef_y => set_prefactors_xy m coef_x coef_y
  | Flat factors => set_prefactors_flat m factors
  end.

Fixpoint do_calls (cs : list call) (m : t) : option t :=
  match cs with
  | [] => Some m
  | c :: cs => m' ← do_call c m; do_calls cs m'
  end.

End Members.

Arguments t : clear implicits.

End MixedDerivative.

(** The 3 x 3 instance over the grid [0, 1, 2] on both axes. *)
Definition unit3_instance : MixedDerivative.t band_diagonal_matrix.TriDiagonal
                  band_diagonal_matrix.TriDiagonal :=
  MixedDerivative.MixedDerivative c2b1_unit3 c2b1_unit3.

(** * Properties *)

(** One step of the option monad, on a bind whose first computation has
    been rewritten to its result. *)
Ltac bind_step := cbn [mbind option_bind].

(** ** Loops and vector writes *)

Section LoopRules.

Context {S : Type}.

(** Invariant rule for a counted loop: an invariant that every iteration
    can carry one step further survives the whole loop, and the loop has a
    defined result. *)
Lemma for_loop_inv (I : nat -> S -> Prop) (body : nat -> S -> option S) :
  forall (count start : nat) (s : S),
    I start s ->
    (forall i s, (start <= i < start + count)%nat -> I i s ->
                 exists s', body i s = Some s' /\ I (Datatypes.S i) s') ->
    exists s', for_loop count start body s = Some s'
               /\ I (start + count)%nat s'.
Proof.
  induction count as [|c IH]; intros start s Hs Hstep; simpl.
  - exists s. rewrite Nat.add_0_r. auto.
  - assert (Hb : exists s', body start s = Some s'
                             /\ I (Datatypes.S start) s')
      by (apply Hstep; [lia | assumption]).
    destruct Hb as (s1 & -> & Hs1).
    assert (Hrest : exists s', for_loop c (Datatypes.S start) body s1
                               = Some s'
                               /\ I (Datatypes.S start + c)%nat s').
    { apply IH; [assumption|]. intros i s' Hi. apply Hstep. lia. }
    destruct Hrest as (s2 & Hrun & Hs2).
    exists s2. split; [assumption|].
    replace (start + Datatypes.S c)%nat
      with (Datatypes.S start + c)%nat by lia.
    assumption.
Qed.

End LoopRules.

Lemma row_upto_start (old : list R) (c : nat -> R) :
  row_upto old c (length old) 0 old.
Proof. split; [reflexivity | split]; intros; [lia | reflexivity]. Qed.

Lemma row_upto_write (old : list R) (c : nat -> R) (n i : nat) (r : list R) :
  row_upto old c n i r -> (i < n)%nat ->
  exists r', Vec.write r i (c i) = Some r'
             /\ row_upto old c n (Datatypes.S i) r'.
Proof.
  intros (Hlen & Hlo & Hhi) Hi. unfold Vec.write.
  rewrite decide_True by lia. eexists. split; [reflexivity|].
  split; [|split].
  - rewrite length_insert. exact Hlen.
  - intros k Hk Hkn. destruct (decide (k = i)) as [->|Hne].
    + apply list_lookup_insert_eq. lia.
    + rewrite list_lookup_insert_ne by congruence. apply Hlo; lia.
  - intros k Hk. rewrite list_lookup_insert_ne by lia. apply Hhi. lia.
Qed.

Lemma row_upto_read (old : list R) (c : nat -> R) (n i : nat) (r : list R) :
  row_upto old c n i r -> Vec.read r i = old !! i.
Proof. intros (_ & _ & Hhi). apply Hhi. lia. Qed.

(** A vector all of whose entries are known is the tabulation of them. *)
Lemma row_upto_full (old : list R) (c : nat -> R) (n : nat) (r : list R) :
  row_upto old c n n r -> r = map c (seq 0 n).
Proof.
  intros (Hlen & Hlo & _). apply list_eq. intros k.
  destruct (decide (k < n)%nat) as [Hk|Hk].
  - rewrite Hlo by assumption. rewrite list_lookup_fmap.
    rewrite lookup_seq_lt by assumption. reflexivity.
  - rewrite lookup_ge_None_2 by lia. symmetry. apply lookup_ge_None_2.
    rewrite length_map, length_seq. lia.
Qed.

(** The plain fill loop [for i: v[i] = c i] over a prefix of a vector. *)
Lemma fill_loop (c : nat -> R) (m : nat) (v : list R) :
  (m <= length v)%nat ->
  exists r, for_loop m 0 (fun i r => Vec.write r i (c i)) v = Some r
            /\ row_upto v c (length v) m r.
Proof.
  intros Hm.
  apply (for_loop_inv (fun i r => row_upto v c (length v) i r)).
  - apply row_upto_start.
  - intros i r Hi Hr. apply row_upto_write; [assumption | lia].
Qed.

(** Reading every index of a vector in turn visits its entries in order. *)
Lemma tabulate_coef (F : R -> R) (l : list R) :
  map (fun k => F (coef l k)) (seq 0 (length l)) = map F l.
Proof.
  apply list_eq. intros k. rewrite !list_lookup_fmap.
  destruct (l !! k) as [x|] eqn:Hk.
  - rewrite lookup_seq_lt by (apply lookup_lt_is_Some; eauto).
    simpl. unfold coef. rewrite Hk. reflexivity.
  - rewrite lookup_seq_ge by (apply lookup_ge_None; assumption).
    reflexivity.
Qed.

Lemma read_coef (l : list R) (i : nat) :
  (i < length l)%nat -> Vec.read l i = Some (coef l i).
Proof.
  intros Hi. unfold Vec.read, coef.
  destruct (lookup_lt_is_Some_2 l i Hi) as [x ->]. reflexivity.
Qed.

(** ** grid::uniform *)

Section GridUniform.

Local Open Scope R_scope.

Variables x_min x_max : R.
Variable n_points : Z.

(** The vector the loop leaves behind, as a tabulation. *)
Lemma uniform_tabulated :
  (0 <= n_points)%Z ->
  grid.uniform x_min x_max n_points
  = Some (map (fun i => (x_max - x_min) / IZR (n_points - 1) * INR i + x_min)
              (seq 0 (Z.to_nat n_points))).
Proof.
  intros Hn. unfold grid.uniform. rewrite decide_False by lia.
  destruct (fill_loop
              (fun i => (x_max - x_min) / IZR (n_points - 1) * INR i + x_min)
              (Z.to_nat n_points)
              (Vec.make (Z.to_nat n_points) 0)) as (r & Hrun & Hr).
  { unfold Vec.make. rewrite length_replicate. lia. }
  cbv zeta. rewrite Hrun. f_equal.
  unfold Vec.make in Hr. rewrite length_replicate in Hr.
  eapply row_upto_full. exact Hr.
Qed.

End GridUniform.

(** ** bs::pde::generator::prefactor *)

Lemma write2_row0 (r0 r1 r2 : list R) (i : nat) (x : R) (r : list R) :
  Vec.write r0 i x = Some r ->
  bs.pde.generator.write2 [r0; r1; r2] 0 i x = Some [r; r1; r2].
Proof. unfold bs.pde.generator.write2. simpl. intros ->. reflexivity. Qed.

Lemma write2_row1 (r0 r1 r2 : list R) (i : nat) (x : R) (r : list R) :
  Vec.write r1 i x = Some r ->
  bs.pde.generator.write2 [r0; r1; r2] 1 i x = Some [r0; r; r2].
Proof. unfold bs.pde.generator.write2. simpl. intros ->. reflexivity. Qed.

Lemma write2_row2 (r0 r1 r2 : list R) (i : nat) (x : R) (r : list R) :
  Vec.write r2 i x = Some r ->
  bs.pde.generator.write2 [r0; r1; r2] 2 i x = Some [r0; r1; r].
Proof. unfold bs.pde.generator.write2. simpl. intros ->. reflexivity. Qed.

Section Prefactor.

Local Open Scope R_scope.

Variables rate sigma : R.
Variable spatial_grid : list R.

Lemma prefactor_rows :
  bs.pde.generator.prefactor rate sigma spatial_grid
  = Some [ map (fun _ => - rate) spatial_grid;
           map (fun s => rate * s) spatial_grid;
           map (fun s => 0.5 * (sigma * s) ^ 2) spatial_grid ].
Proof.
  unfold bs.pde.generator.prefactor.
  set (n := length spatial_grid). set (zeros := Vec.make n 0).
  assert (Hz : length zeros = n)
    by (unfold zeros, Vec.make; apply length_replicate).
  destruct (for_loop_inv (bs.pde.generator.filled rate sigma spatial_grid)
    (fun i prefactor =>
       s ← Vec.read spatial_grid i;
       prefactor ← bs.pde.generator.write2 prefactor 0 i (- rate);
       prefactor ← bs.pde.generator.write2 prefactor 1 i (rate * s);
       bs.pde.generator.write2 prefactor 2 i (0.5 * (sigma * s) ^ 2))
    n 0%nat (replicate 3 zeros)) as (p & Hrun & Hp).
  - assert (Hstart : forall c, row_upto zeros c n 0 zeros).
    { intros c. pose proof (row_upto_start zeros c) as H.
      rewrite Hz in H. exact H. }
    exists zeros, zeros, zeros. auto.
  - intros i p Hi (r0 & r1 & r2 & -> & H0 & H1 & H2).
    rewrite read_coef by (fold n; lia).
    destruct (row_upto_write _ _ _ _ _ H0) as (r0' & E0 & H0'); [lia|].
    destruct (row_upto_write _ _ _ _ _ H1) as (r1' & E1 & H1'); [lia|].
    destruct (row_upto_write _ _ _ _ _ H2) as (r2' & E2 & H2'); [lia|].
    bind_step.
    rewrite (write2_row0 _ _ _ _ _ _ E0). bind_step.
    rewrite (write2_row1 _ _ _ _ _ _ E1). bind_step.
    rewrite (write2_row2 _ _ _ _ _ _ E2).
    eexists. split; [reflexivity|].
    exists r0', r1', r2'. auto.
  - rewrite Hrun.
    destruct Hp as (r0 & r1 & r2 & -> & H0 & H1 & H2).
    change (0 + n)%nat with (length spatial_grid) in H0, H1, H2.
    apply row_upto_full in H0, H1, H2. subst r0 r1 r2.
    rewrite (tabulate_coef (fun _ => - rate)).
    rewrite (tabulate_coef (fun s => rate * s)).
    rewrite (tabulate_coef (fun s => 0.5 * (sigma * s) ^ 2)).
    reflexivity.
Qed.

End Prefactor.

Section GridExamples.

Local Open Scope R_scope.

(** The grid of five points on [0, 4]. *)
Example uniform_five_points : grid.uniform 0 4 5 = Some [0; 1; 2; 3; 4].
Proof.
  rewrite uniform_tabulated by lia.
  change (5 - 1)%Z with 4%Z. change (Z.to_nat 5) with 5%nat.
  cbn [seq map INR]. repeat f_equal; lra.
Qed.

(** No point at all gives the empty grid, and a negative count no grid. *)
Example uniform_no_point : grid.uniform 0 4 0 = Some [].
Proof. reflexivity. Qed.

Example uniform_negative_count : grid.uniform 0 4 (-1) = None.
Proof. reflexivity. Qed.

End GridExamples.

(** ** grid::uniform and prefactor on IEEE doubles *)

(** Two optional doubles that differ: both sides are evaluated and compared
    bit for bit. *)
Ltac doubles_differ :=
  let H := fresh "H" in
  intros H; vm_compute in H;
  lazymatch type of H with
  | Some ?a = Some ?b =>
      apply (f_equal (fun o : option float =>
                        match o with
                        | Some x => PrimFloat.Leibniz.eqb x b
                        | None => false
                        end)) in H;
      vm_compute in H; discriminate H
  | _ => discriminate H
  end.

Section DoubleLoops.

Import binary64.

Lemma written_upto_start (c : nat -> float) (v : list float) :
  written_upto c (length v) 0 v.
Proof. split; [reflexivity|]. intros k Hk. lia. Qed.

Lemma written_upto_write (c : nat -> float) (n i : nat) (r : list float) :
  written_upto c n i r -> (i < n)%nat ->
  exists r', Vec.write r i (c i) = Some r'
             /\ written_upto c n (Datatypes.S i) r'.
Proof.
  intros (Hlen & Hlo) Hi. unfold Vec.write.
  rewrite decide_True by lia. eexists. split; [reflexivity|]. split.
  - rewrite length_insert. exact Hlen.
  - intros k Hk Hkn. destruct (decide (k = i)) as [->|Hne].
    + apply list_lookup_insert_eq. lia.
    + rewrite list_lookup_insert_ne by congruence. apply Hlo; lia.
Qed.

Lemma written_upto_full (c : nat -> float) (n : nat) (r : list float) :
  written_upto c n n r -> r = map c (seq 0 n).
Proof.
  intros (Hlen & Hlo). apply list_eq. intros k.
  destruct (decide (k < n)%nat) as [Hk|Hk].
  - rewrite Hlo by assumption. rewrite list_lookup_fmap.
    rewrite lookup_seq_lt by assumption. reflexivity.
  - rewrite lookup_ge_None_2 by lia. symmetry. apply lookup_ge_None_2.
    rewrite length_map, length_seq. lia.
Qed.

(** A loop that assigns every entry of a vector of doubles leaves the
    tabulation of the assigned values. *)
Lemma double_fill (c : nat -> float) (n : nat) (v : list float) :
  length v = n ->
  for_loop n 0 (fun i r => Vec.write r i (c i)) v = Some (map c (seq 0 n)).
Proof.
  intros Hv.
  destruct (for_loop_inv (fun i r => written_upto c n i r)
              (fun i r => Vec.write r i (c i)) n 0%nat v)
    as (r & -> & Hr).
  - rewrite <- Hv. apply written_upto_start.
  - intros i r Hi Hr. apply written_upto_write; [assumption | lia].
  - apply written_upto_full in Hr. rewrite Hr. reflexivity.
Qed.

Lemma tabulate_default (F : float -> float) (l : list float) :
  map (fun k => F (default 0%float (l !! k))) (seq 0 (length l)) = map F l.
Proof.
  apply list_eq. intros k. rewrite !list_lookup_fmap.
  destruct (l !! k) as [x|] eqn:Hk.
  - rewrite lookup_seq_lt by (apply lookup_lt_is_Some; eauto).
    simpl. rewrite Hk. reflexivity.
  - rewrite lookup_seq_ge by (apply lookup_ge_None; assumption).
    reflexivity.
Qed.

(** The vector the loop of [grid::uniform] leaves behind, on doubles. *)
Lemma uniform_double_tabulated (x_min x_max : float) (n_points : Z) :
  (0 <= n_points)%Z ->
  grid.uniform x_min x_max n_points
  = Some (map (fun i : nat =>
                 (x_max - x_min) / of_int (n_points - 1)
                 * of_int (Z.of_nat i) + x_min)%float
              (seq 0 (Z.to_nat n_points))).
Proof.
  intros Hn. unfold grid.uniform. rewrite decide_False by lia. cbv zeta.
  apply double_fill. unfold Vec.make. apply length_replicate.
Qed.

(** C10, as amended: for [n_points >= 2], [grid::uniform(x_min, x_max,
    n_points)] returns exactly [n_points] entries, entry [i] being the
    double [dx * i + x_min] for the double
    [dx = (x_max - x_min) / (n_points - 1)]. *)
Theorem uniform_double_entries (x_min x_max : float) (n_points : Z) :
  (2 <= n_points)%Z ->
  exists g : list float,
    grid.uniform x_min x_max n_points = Some g
    /\ Z.of_nat (length g) = n_points
    /\ forall i : nat,
         (Z.of_nat i < n_points)%Z ->
         g !! i
         = Some ((x_max - x_min) / of_int (n_points - 1)
                 * of_int (Z.of_nat i) + x_min)%float.
Proof.
  intros Hn. eexists. split; [apply uniform_double_tabulated; lia|].
  split; [rewrite length_map, length_seq; lia|].
  intros i Hi. rewrite list_lookup_fmap, lookup_seq_lt by lia.
  reflexivity.
Qed.

Lemma uniform_double_entries_witness :
  (2 <= 5)%Z
  /\ exists g : list float,
       grid.uniform 0 4 5 = Some g
       /\ Z.of_nat (length g) = 5%Z
       /\ forall i : nat,
            (Z.of_nat i < 5)%Z ->
            g !! i
            = Some ((4 - 0) / of_int (5 - 1)
                    * of_int (Z.of_nat i) + 0)%float.
Proof.
  split; [lia|]. exact (uniform_double_entries 0 4 5 ltac:(lia)).
Defined.

(** On the grid of five points on [0, 4] the doubles are exact. *)
Example uniform_double_five_points :
  grid.uniform 0 4 5 = Some [0; 1; 2; 3; 4]%float.
Proof. vm_compute. reflexivity. Qed.

(** C10, as stated, fails on doubles, in each of its three parts.  On
    [uniform(0, 1, 50)] entry 49 is not the claimed
    [0 + 49 * (1 - 0) / 49 = 1].  On [uniform(-2^1023, 2^1023, 3)] the
    difference of the bounds overflows and entry 0 is not [x_min].  On
    [uniform(1e16, 1e16 + 2, 5)], where [x_min < x_max], entries 0 and 1
    are equal. *)
Lemma uniform_double_counterexample :
  (exists g : list float,
     grid.uniform 0 1 50 = Some g
     /\ g !! 49%nat = Some 0x1.fffffffffffffp-1%float
     /\ uniform_entry_as_claimed 0 1 50 49 = 1%float
     /\ g !! 49%nat <> Some (uniform_entry_as_claimed 0 1 50 49))
  /\ (exists g : list float,
        grid.uniform (- 0x1p1023) 0x1p1023 3 = Some g
        /\ g !! 0%nat = Some nan
        /\ g !! 0%nat <> Some (- 0x1p1023)%float)
  /\ (1e16 <? 1e16 + 2)%float = true
  /\ (exists g : list float,
        grid.uniform 1e16 (1e16 + 2) 5 = Some g
        /\ g = [1e16; 1e16; 1e16; 1e16 + 2; 1e16 + 2]%float
        /\ ~ (forall (i j : nat) (xi xj : float),
                (i < j)%nat -> g !! i = Some xi -> g !! j = Some xj ->
                (xi <? xj)%float = true)).
Proof.
  split; [|split; [|split]].
  - eexists. split; [vm_compute; reflexivity|].
    split; [reflexivity|]. split; [reflexivity|]. doubles_differ.
  - eexists. split; [vm_compute; reflexivity|].
    split; [reflexivity|]. doubles_differ.
  - reflexivity.
  - eexists. split; [vm_compute; reflexivity|].
    split; [reflexivity|].
    intros Hinc.
    specialize (Hinc 0%nat 1%nat _ _ ltac:(lia) eq_refl eq_refl).
    vm_compute in Hinc. discriminate Hinc.
Qed.

Section PrefactorOnDoubles.

Variable pow : float -> float -> float.

Lemma double_write2_row0 (r0 r1 r2 : list float) (i : nat) (x : float)
    (r : list float) :
  Vec.write r0 i x = Some r ->
  bs.pde.generator.write2 [r0; r1; r2] 0 i x = Some [r; r1; r2].
Proof. unfold bs.pde.generator.write2. simpl. intros ->. reflexivity. Qed.

Lemma double_write2_row1 (r0 r1 r2 : list float) (i : nat) (x : float)
    (r : list float) :
  Vec.write r1 i x = Some r ->
  bs.pde.generator.write2 [r0; r1; r2] 1 i x = Some [r0; r; r2].
Proof. unfold bs.pde.generator.write2. simpl. intros ->. reflexivity. Qed.

Lemma double_write2_row2 (r0 r1 r2 : list float) (i : nat) (x : float)
    (r : list float) :
  Vec.write r2 i x = Some r ->
  bs.pde.generator.write2 [r0; r1; r2] 2 i x = Some [r0; r1; r].
Proof. unfold bs.pde.generator.write2. simpl. intros ->. reflexivity. Qed.

(** The three rows the loop of [prefactor] leaves behind, on doubles. *)
Lemma prefactor_double_rows (rate sigma : float)
    (spatial_grid : list float) :
  bs.pde.generator.prefactor pow rate sigma spatial_grid
  = Some [ map (fun _ => - rate)%float spatial_grid;
           map (fun s => rate * s)%float spatial_grid;
           map (fun s => 0.5 * pow (sigma * s) 2)%float spatial_grid ].
Proof.
  unfold bs.pde.generator.prefactor. cbv zeta.
  set (n := length spatial_grid). set (zeros := Vec.make n 0%float).
  assert (Hz : length zeros = n)
    by (unfold zeros, Vec.make; apply length_replicate).
  destruct (for_loop_inv
    (bs.pde.generator.filled pow rate sigma spatial_grid)
    (fun i prefactor =>
       s ← Vec.read spatial_grid i;
       prefactor ← bs.pde.generator.write2 prefactor 0 i (- rate)%float;
       prefactor ← bs.pde.generator.write2 prefactor 1 i (rate * s)%float;
       bs.pde.generator.write2 prefactor 2 i
         (0.5 * pow (sigma * s) 2)%float)
    n 0%nat (replicate 3 zeros)) as (p & Hrun & Hp).
  - assert (Hstart : forall c, written_upto c n 0 zeros).
    { intros c. pose proof (written_upto_start c zeros) as H.
      rewrite Hz in H. exact H. }
    exists zeros, zeros, zeros. cbv zeta. fold n. auto.
  - intros i p Hi (r0 & r1 & r2 & -> & H0 & H1 & H2). fold n in H0, H1, H2.
    unfold Vec.read.
    destruct (lookup_lt_is_Some_2 spatial_grid i) as [s Hs]; [fold n; lia|].
    rewrite Hs. bind_step.
    destruct (written_upto_write _ _ _ _ H0) as (r0' & E0 & H0'); [lia|].
    destruct (written_upto_write _ _ _ _ H1) as (r1' & E1 & H1'); [lia|].
    destruct (written_upto_write _ _ _ _ H2) as (r2' & E2 & H2'); [lia|].
    cbv beta in E1, E2. rewrite Hs in E1, E2. simpl default in E1, E2.
    rewrite (double_write2_row0 _ _ _ _ _ _ E0). bind_step.
    rewrite (double_write2_row1 _ _ _ _ _ _ E1). bind_step.
    rewrite (double_write2_row2 _ _ _ _ _ _ E2).
    eexists. split; [reflexivity|].
    exists r0', r1', r2'. cbv zeta. fold n. auto.
  - rewrite Hrun.
    destruct Hp as (r0 & r1 & r2 & -> & H0 & H1 & H2).
    change (0 + n)%nat with (length spatial_grid) in H0, H1, H2.
    apply written_upto_full in H0, H1, H2. subst r0 r1 r2.
    rewrite (tabulate_default (fun _ => - rate)%float).
    rewrite (tabulate_default (fun s => rate * s)%float).
    rewrite (tabulate_default (fun s => 0.5 * pow (sigma * s) 2)%float).
    reflexivity.
Qed.

End PrefactorOnDoubles.

(** C2, as amended: [bs::pde::generator::prefactor(r, sigma, grid)]
    returns exactly three sequences of the grid's length; at every index
    [i] the first holds [-r], the second the double [r * grid[i]] and the
    third the double [0.5 * pow(sigma * grid[i], 2)]; with rate 0.05, sigma
    0.2 and grid [50, 100, 150], where [pow] squares 10, 20 and 30 exactly,
    they are [-0.05, -0.05, -0.05], [2.5, 5, 7.5] and [50, 200, 450]. *)
Theorem prefactor_double_coefficients (pow : float -> float -> float) :
  (forall (rate sigma : float) (spatial_grid : list float),
     exists c0 c1 c2 : list float,
       bs.pde.generator.prefactor pow rate sigma spatial_grid
       = Some [c0; c1; c2]
       /\ length c0 = length spatial_grid
       /\ length c1 = length spatial_grid
       /\ length c2 = length spatial_grid
       /\ forall (i : nat) (s : float),
            spatial_grid !! i = Some s ->
            c0 !! i = Some (- rate)%float
            /\ c1 !! i = Some (rate * s)%float
            /\ c2 !! i = Some (0.5 * pow (sigma * s) 2)%float)
  /\ (pow 10 2 = 100 -> pow 20 2 = 400 -> pow 30 2 = 900 ->
      bs.pde.generator.prefactor pow 0.05 0.2 [50; 100; 150]
      = Some [ [-0.05; -0.05; -0.05]; [2.5; 5; 7.5]; [50; 200; 450] ])%float.
Proof.
  split.
  - intros rate sigma spatial_grid. do 3 eexists.
    split; [apply prefactor_double_rows|].
    rewrite !length_map. repeat (split; [reflexivity|]).
    intros i s Hs. rewrite !list_lookup_fmap, Hs. simpl. auto.
  - intros H10 H20 H30. rewrite prefactor_double_rows. cbn [map].
    change (0.2 * 50)%float with 10%float.
    change (0.2 * 100)%float with 20%float.
    change (0.2 * 150)%float with 30%float.
    rewrite H10, H20, H30. reflexivity.
Qed.

Lemma prefactor_double_coefficients_witness :
  (pow_exact_square 10 2 = 100 /\ pow_exact_square 20 2 = 400
   /\ pow_exact_square 30 2 = 900)%float
  /\ (bs.pde.generator.prefactor pow_exact_square 0.05 0.2 [50; 100; 150]
      = Some [ [-0.05; -0.05; -0.05]; [2.5; 5; 7.5]; [50; 200; 450] ])%float.
Proof.
  split; [repeat split; reflexivity|].
  exact (proj2 (prefactor_double_coefficients pow_exact_square)
           eq_refl eq_refl eq_refl).
Defined.

(** C2, as stated, fails on doubles in its third sequence: with sigma 0.1
    and the grid point 10 the code returns [0.5 * pow(1, 2) = 0.5], and the
    claimed [0.5 * sigma^2 * grid[i]^2] is 0.5000000000000001. *)
Lemma prefactor_double_counterexample :
  (0.1 * 10 = 1)%float
  /\ exists c0 c1 c2 : list float,
       bs.pde.generator.prefactor pow_exact_square 0.05 0.1 [10]%float
       = Some [c0; c1; c2]
       /\ c2 !! 0%nat = Some 0.5%float
       /\ third_coefficient_as_claimed 0.1 10 = 0x1.0000000000001p-1%float
       /\ c2 !! 0%nat <> Some (third_coefficient_as_claimed 0.1 10).
Proof.
  split; [reflexivity|]. do 3 eexists.
  split; [vm_compute; reflexivity|].
  split; [reflexivity|]. split; [reflexivity|]. doubles_differ.
Qed.

End DoubleLoops.

(** ** MixedDerivative: the prefactor field *)

Lemma write_length (v : list R) (i : nat) (x : R) (v' : list R) :
  Vec.write v i x = Some v' -> length v' = length v.
Proof.
  unfold Vec.write. case_decide; [|discriminate].
  intros [= <-]. apply length_insert.
Qed.

Lemma write_in_range (v : list R) (i : nat) (x : R) :
  (i < length v)%nat -> Vec.write v i x = Some (<[i := x]> v).
Proof.
  intros Hi. unfold Vec.write. rewrite decide_True by lia. reflexivity.
Qed.

Lemma write_out_of_range (v : list R) (i : nat) (x : R) :
  (length v <= i)%nat -> Vec.write v i x = None.
Proof.
  intros Hi. unfold Vec.write. rewrite decide_False by lia. reflexivity.
Qed.

Lemma map_const_seq (s : R) (n start : nat) :
  map (fun _ : nat => s) (seq start n) = replicate n s.
Proof.
  revert start. induction n as [|n IH]; intros start; simpl;
    [reflexivity | f_equal; apply IH].
Qed.

Section PrefactorField.

Local Open Scope R_scope.

Context {T1 T2 : Type} {O1 : Operator1D T1} {O2 : Operator1D T2}.

Import MixedDerivative.

Implicit Types m : MixedDerivative.t T1 T2.

(** The constructor establishes the class invariant. *)
Lemma constructor_sized (d1dx1_ : T1) (d1dy1_ : T2) :
  sized (MixedDerivative d1dx1_ d1dy1_).
Proof. unfold sized, Vec.make. simpl. apply length_replicate. Qed.

(** C5: the constructor produces an instance whose prefactor field has
    exactly [n_x * n_y] entries, every one of which equals 1.0. *)
Theorem constructor_unit_prefactors (d1dx1_ : T1) (d1dy1_ : T2) :
  let m := MixedDerivative d1dx1_ d1dy1_ in
  length (prefactors m) = (order d1dx1_ * order d1dy1_)%nat
  /\ (forall i : nat, (i < order d1dx1_ * order d1dy1_)%nat ->
        prefactors m !! i = Some 1)
  /\ d1dx1 m = d1dx1_ /\ d1dy1 m = d1dy1_.
Proof.
  simpl. unfold Vec.make. split; [apply length_replicate|].
  split; [|split; reflexivity].
  intros i Hi. apply lookup_replicate_2. exact Hi.
Qed.

(** The scalar overload: the loop runs over the whole field, whatever its
    size. *)
Lemma set_prefactors_scalar_fill m (scalar : R) :
  set_prefactors m scalar
  = Some (with_prefactors m (replicate (length (prefactors m)) scalar)).
Proof.
  unfold set_prefactors.
  destruct (fill_loop (fun _ => scalar) (length (prefactors m))
              (prefactors m)) as (r & -> & Hr); [lia|].
  apply row_upto_full in Hr. rewrite map_const_seq in Hr. subst r.
  reflexivity.
Qed.

(** C8: after [set_prefactors(s)] every one of the [n_x * n_y] entries of
    the prefactor field equals [s]. *)
Theorem set_prefactors_scalar_everywhere m (s : R) :
  sized m ->
  exists m' : MixedDerivative.t T1 T2,
    set_prefactors m s = Some m'
    /\ length (prefactors m') = (order (d1dx1 m) * order (d1dy1 m))%nat
    /\ forall i : nat, (i < order (d1dx1 m) * order (d1dy1 m))%nat ->
         prefactors m' !! i = Some s.
Proof.
  intros Hm. eexists. split; [apply set_prefactors_scalar_fill|].
  unfold sized in Hm. simpl.
  split; [rewrite length_replicate; exact Hm|].
  intros i Hi. apply lookup_replicate_2. lia.
Qed.

(** The flat overload copies [factors] over the front of the field, when
    the field is long enough to take it. *)
Lemma set_prefactors_flat_front m (factors : list R) :
  (length factors <= length (prefactors m))%nat ->
  exists p : list R,
    set_prefactors_flat m factors = Some (with_prefactors m p)
    /\ row_upto (prefactors m) (coef factors) (length (prefactors m))
         (length factors) p.
Proof.
  intros Hlen. unfold set_prefactors_flat.
  destruct (for_loop_inv
    (fun i (st : list R * Z) =>
       row_upto (prefactors m) (coef factors) (length (prefactors m)) i
         (fst st))
    (fun i '(p, index) =>
       f ← Vec.read factors i;
       p ← Vec.write p i f;
       Some (p, (index + 1)%Z))
    (length factors) 0%nat (prefactors m, 0%Z))
    as ([p idx] & Hrun & Hp).
  - apply row_upto_start.
  - intros i [p idx] Hi Hp. simpl in Hp.
    rewrite read_coef by lia. bind_step.
    destruct (row_upto_write _ _ _ _ _ Hp) as (p' & -> & Hp'); [lia|].
    bind_step. eexists. split; [reflexivity|]. exact Hp'.
  - rewrite Hrun. bind_step. exists p. split; [reflexivity|].
    exact Hp.
Qed.

(** X15: a flat sequence longer than the prefactor field makes the loop
    write past the end of the field: the call has no defined result. *)
Lemma set_prefactors_flat_overrun m (factors : list R) :
  (length (prefactors m) < length factors)%nat ->
  set_prefactors_flat m factors = None.
Proof.
  intros Hlen. unfold set_prefactors_flat.
  set (body := fun (i : nat) '((p, index) : list R * Z) =>
       f ← Vec.read factors i;
       p ← Vec.write p i f;
       Some (p, (index + 1)%Z)).
  assert (Hgen : forall count start (p : list R) idx,
            length p = length (prefactors m) ->
            (start <= length p)%nat ->
            (length p < start + count)%nat ->
            (start + count <= length factors)%nat ->
            for_loop count start body (p, idx) = None).
  { induction count as [|c IH]; intros start p idx Hp Hs Hc Hf; [lia|].
    simpl. rewrite read_coef by lia. bind_step.
    destruct (decide (start < length p)%nat) as [Hlt|Hge].
    - rewrite write_in_range by assumption. bind_step.
      apply IH; rewrite ?length_insert; lia.
    - rewrite write_out_of_range by lia. reflexivity. }
  rewrite Hgen by lia. reflexivity.
Qed.

(** C9: for [factors] of length [m < n_x * n_y], [set_prefactors(factors)]
    overwrites only the entries at indices 0 to [m - 1], with the
    corresponding entries of [factors]; every entry at an index [>= m]
    keeps its previous value. *)
Theorem set_prefactors_flat_short m (factors : list R) :
  sized m ->
  (length factors < order (d1dx1 m) * order (d1dy1 m))%nat ->
  exists m' : MixedDerivative.t T1 T2,
    set_prefactors_flat m factors = Some m'
    /\ length (prefactors m') = (order (d1dx1 m) * order (d1dy1 m))%nat
    /\ (forall i : nat, (i < length factors)%nat ->
          prefactors m' !! i = factors !! i)
    /\ (forall i : nat, (length factors <= i)%nat ->
          prefactors m' !! i = prefactors m !! i).
Proof.
  intros Hm Hlen. unfold sized in Hm.
  destruct (set_prefactors_flat_front m factors) as (p & Hrun & Hp); [lia|].
  exists (with_prefactors m p). split; [exact Hrun|]. simpl.
  destruct Hp as (Hl & Hlo & Hhi).
  split; [lia|]. split; [|exact Hhi].
  intros i Hi. rewrite Hlo by lia. unfold coef.
  destruct (lookup_lt_is_Some_2 factors i Hi) as [x ->]. reflexivity.
Qed.

End PrefactorField.

(** ** The stencil builder and the tridiagonal action *)

Section Stencil.

Local Open Scope R_scope.

Import band_diagonal_matrix.

(** The tridiagonal action keeps the length of its argument. *)
#[global] Instance TriDiagonal_length_preserving : LengthPreserving TriDiagonal.
Proof.
  intros op v Hv. simpl in *. unfold tri_action.
  rewrite decide_True by assumption. eexists. split; [reflexivity|].
  rewrite length_map, length_seq. reflexivity.
Qed.

(** The builder accepts every strictly increasing grid of three points or
    more, and the operator has the order of the grid. *)
Lemma c2b1_defined (grid : list R) :
  (3 <= length grid)%nat -> increasing grid = true ->
  exists op : TriDiagonal,
    d1dx1.uniform.c2b1 grid = Some op /\ order op = length grid.
Proof.
  intros Hn Hinc. unfold d1dx1.uniform.c2b1.
  rewrite decide_False by lia. rewrite Hinc.
  eexists. split; reflexivity.
Qed.

Lemma increasing_cons (x y : R) (rest : list R) :
  x < y -> increasing (y :: rest) = true ->
  increasing (x :: y :: rest) = true.
Proof.
  intros Hxy Hrest. cbn [increasing].
  destruct (Rlt_dec x y) as [_|Hn]; [exact Hrest | contradiction].
Qed.

Lemma c2b1_unit3_built : d1dx1.uniform.c2b1 [0; 1; 2] = Some c2b1_unit3.
Proof.
  assert (Hinc : increasing [0; 1; 2] = true).
  { repeat (apply increasing_cons; [lra|]). reflexivity. }
  unfold d1dx1.uniform.c2b1. rewrite Hinc.
  cbv -[IZR Rplus Rmult Rminus Rdiv Ropp Rinv c2b1_unit3].
  replace (1 - 0) with 1 by lra. unfold c2b1_unit3.
  repeat f_equal; lra.
Qed.

(** C7: the operator built by [d1dx1::uniform::c2b1] on the uniform grid
    [0, 1, 2, 3, 4], applied to [0, 1, 4, 9, 16], yields 1 at entry 0, 4 at
    entry 2 and 7 at entry 4. *)
Theorem c2b1_on_squares :
  exists (op : TriDiagonal) (out : list R),
    d1dx1.uniform.c2b1 [0; 1; 2; 3; 4] = Some op
    /\ action op [0; 1; 4; 9; 16] = Some out
    /\ length out = 5%nat
    /\ out !! 0%nat = Some 1
    /\ out !! 2%nat = Some 4
    /\ out !! 4%nat = Some 7.
Proof.
  assert (Hinc : increasing [0; 1; 2; 3; 4] = true).
  { repeat (apply increasing_cons; [lra|]). reflexivity. }
  unfold d1dx1.uniform.c2b1. rewrite Hinc.
  do 2 eexists. split; [reflexivity|].
  split; [reflexivity|].
  cbv -[IZR Rplus Rmult Rminus Rdiv Ropp Rinv].
  replace (1 - 0) with 1 by lra.
  repeat split; f_equal; lra.
Qed.

End Stencil.

(** ** MixedDerivative: the outer-product overload *)

Section OuterProduct.

Local Open Scope R_scope.

Context {T1 T2 : Type} {O1 : Operator1D T1} {O2 : Operator1D T2}.

Import MixedDerivative.

Implicit Types m : MixedDerivative.t T1 T2.

(** One pass of the inner loop, for a fixed [i]: every [j] assigns to the
    same entry [prefactors[i]], so only the last product stays. *)
Lemma xy_inner_pass (coef_x coef_y : list R) (i : nat) (p : list R)
    (idx : Z) :
  (i < length coef_x)%nat -> (i < length p)%nat ->
  exists idx' : Z,
    for_loop (length coef_y) 0
      (fun j '(p, index) =>
         cx ← Vec.read coef_x i;
         cy ← Vec.read coef_y j;
         p ← Vec.write p i (cx * cy);
         Some (p, (index + 1)%Z))
      (p, idx)
    = Some (match length coef_y with
            | O => p
            | S j' => <[i := coef coef_x i * coef coef_y j']> p
            end, idx').
Proof.
  intros Hi Hp.
  destruct (for_loop_inv
    (fun j (st : list R * Z) =>
       fst st = match j with
                | O => p
                | S j' => <[i := coef coef_x i * coef coef_y j']> p
                end)
    (fun j '(p, index) =>
       cx ← Vec.read coef_x i;
       cy ← Vec.read coef_y j;
       p ← Vec.write p i (cx * cy);
       Some (p, (index + 1)%Z))
    (length coef_y) 0%nat (p, idx)) as ([q idx'] & Hrun & Hq).
  - reflexivity.
  - intros j [q idx'] Hj Hq. simpl in Hq.
    rewrite read_coef by lia. bind_step.
    rewrite read_coef by lia. bind_step.
    rewrite write_in_range
      by (subst q; destruct j; rewrite ?length_insert; lia).
    bind_step. eexists. split; [reflexivity|]. simpl.
    subst q. destruct j; [reflexivity | apply list_insert_insert_eq].
  - simpl in Hq. subst q. exists idx'. exact Hrun.
Qed.

(** What the outer-product overload computes: entry [i], for [i] below the
    length of [coef_x], receives [coef_x[i]] times the last entry of
    [coef_y]; the rest of the field is not written. *)
Lemma set_prefactors_xy_rows m (coef_x coef_y : list R) :
  coef_y <> [] ->
  (length coef_x <= length (prefactors m))%nat ->
  exists p : list R,
    set_prefactors_xy m coef_x coef_y = Some (with_prefactors m p)
    /\ row_upto (prefactors m)
         (fun i => coef coef_x i * coef coef_y (length coef_y - 1))
         (length (prefactors m)) (length coef_x) p.
Proof.
  intros Hy Hlen. unfold set_prefactors_xy.
  destruct (for_loop_inv
    (fun i (st : list R * Z) =>
       row_upto (prefactors m)
         (fun i => coef coef_x i * coef coef_y (length coef_y - 1))
         (length (prefactors m)) i (fst st))
    (fun i =>
       for_loop (length coef_y) 0
         (fun j '(p, index) =>
            cx ← Vec.read coef_x i;
            cy ← Vec.read coef_y j;
            p ← Vec.write p i (cx * cy);
            Some (p, (index + 1)%Z)))
    (length coef_x) 0%nat (prefactors m, 0%Z)) as ([p idx] & Hrun & Hp).
  - apply row_upto_start.
  - intros i [q idx] Hi Hq. simpl in Hq.
    assert (Hiq : (i < length q)%nat) by (destruct Hq as [-> _]; lia).
    destruct (xy_inner_pass coef_x coef_y i q idx) as (idx' & ->);
      [lia | assumption |].
    destruct (length coef_y) as [|j'] eqn:Hj.
    { destruct coef_y; [contradiction | discriminate]. }
    eexists. split; [reflexivity|]. simpl.
    destruct (row_upto_write _ _ _ _ _ Hq) as (q' & Hw & Hq'); [lia|].
    rewrite write_in_range in Hw by assumption.
    injection Hw as <-.
    replace (j' - 0)%nat with j' in Hq' by lia. exact Hq'.
  - rewrite Hrun. bind_step. exists p.
    split; [reflexivity | exact Hp].
Qed.

End OuterProduct.

Section OuterProductAtUnitGrid.

Local Open Scope R_scope.

Import band_diagonal_matrix MixedDerivative.

(** C1, evaluated: on the 3 x 3 instance built from the grid [0, 1, 2] on
    both axes, [set_prefactors([2, 3, 5], [7, 11, 13])] leaves the field
    [26, 39, 65, 1, 1, 1, 1, 1, 1]: entry [0 * 3 + 0] is not [2 * 7] and
    entry [1 * 3 + 1] is not [3 * 11]. *)
Theorem set_prefactors_xy_writes_first_entries :
  exists (op : TriDiagonal) (m' : MixedDerivative.t TriDiagonal TriDiagonal),
    d1dx1.uniform.c2b1 [0; 1; 2] = Some op
    /\ order op = 3%nat
    /\ set_prefactors_xy (MixedDerivative op op) [2; 3; 5] [7; 11; 13]
       = Some m'
    /\ prefactors m' = [2 * 13; 3 * 13; 5 * 13; 1; 1; 1; 1; 1; 1]
    /\ prefactors m' !! (0 * 3 + 0)%nat <> Some (2 * 7)
    /\ prefactors m' !! (1 * 3 + 1)%nat <> Some (3 * 11).
Proof.
  exists c2b1_unit3. eexists.
  split; [exact c2b1_unit3_built|]. split; [reflexivity|].
  split; [cbv -[IZR Rmult c2b1_unit3]; reflexivity|].
  cbn [prefactors with_prefactors].
  split; [reflexivity|].
  split; cbn; intros [= H]; lra.
Qed.

End OuterProductAtUnitGrid.

(** ** MixedDerivative: what the overloads leave alone *)

(** A property every defined step keeps is kept by a loop that returns. *)
Lemma for_loop_preserves {S : Type} (I : S -> Prop)
    (body : nat -> S -> option S) :
  (forall i s s', body i s = Some s' -> I s -> I s') ->
  forall (count start : nat) (s s' : S),
    for_loop count start body s = Some s' -> I s -> I s'.
Proof.
  intros Hstep. induction count as [|c IH]; intros start s s'; simpl.
  - intros [= <-]. auto.
  - destruct (body start s) as [s1|] eqn:Hb; [|discriminate].
    intros Hrun Hs. eapply IH; [exact Hrun|]. eapply Hstep; eassumption.
Qed.

Section Frame.

Local Open Scope R_scope.

Context {T1 T2 : Type} {O1 : Operator1D T1} {O2 : Operator1D T2}.

Import MixedDerivative.

Implicit Types m : MixedDerivative.t T1 T2.

Lemma with_prefactors_same_operators m m' (p : list R) :
  d1dx1 m' = d1dx1 m -> d1dy1 m' = d1dy1 m ->
  with_prefactors m' p = with_prefactors m p.
Proof. unfold with_prefactors. intros -> ->. reflexivity. Qed.

(** The assignment [prefactors[i] = x] inside a loop keeps the size of the
    field. *)
Lemma assign_keeps_length (n i : nat) (x : option R) (st st' : list R * Z) :
  (let '(p, index) := st in
   x ← x; p ← Vec.write p i x; Some (p, (index + 1)%Z)) = Some st' ->
  length (fst st) = n -> length (fst st') = n.
Proof.
  destruct st as [p idx]. destruct x as [x|]; [|discriminate].
  bind_step.
  destruct (Vec.write p i x) as [p'|] eqn:Hw; [|discriminate].
  bind_step. intros [= <-] Hp. simpl in *.
  rewrite (write_length _ _ _ _ Hw). exact Hp.
Qed.

(** Each overload, when it returns, has changed neither operator nor the
    size of the prefactor field. *)
Lemma do_call_frame (c : call) m m' :
  do_call c m = Some m' ->
  d1dx1 m' = d1dx1 m /\ d1dy1 m' = d1dy1 m
  /\ length (prefactors m') = length (prefactors m).
Proof.
  destruct c as [scalar | coef_x coef_y | factors]; simpl.
  - rewrite set_prefactors_scalar_fill. intros [= <-]. simpl.
    rewrite length_replicate. auto.
  - unfold set_prefactors_xy.
    destruct (for_loop (length coef_x) 0 _ _) as [[p idx]|] eqn:Hrun;
      [|discriminate].
    bind_step. intros [= <-]. simpl. do 2 (split; [reflexivity|]).
    apply (for_loop_preserves
             (fun st : list R * Z => length (fst st) = length (prefactors m)))
      in Hrun; [exact Hrun | | reflexivity].
    intros i st st' Hinner Hst.
    apply (for_loop_preserves
             (fun st : list R * Z => length (fst st) = length (prefactors m)))
      in Hinner; [exact Hinner | | exact Hst].
    intros j [q k] st2 Hbody Hq.
    destruct (Vec.read coef_x i) as [cx|]; [|discriminate].
    cbn [mbind option_bind] in Hbody.
    eapply (assign_keeps_length _ i (cy ← Vec.read coef_y j; Some (cx * cy))
              (q, k)); [|exact Hq].
    destruct (Vec.read coef_y j); exact Hbody.
  - unfold set_prefactors_flat.
    destruct (for_loop (length factors) 0 _ _) as [[p idx]|] eqn:Hrun;
      [|discriminate].
    bind_step. intros [= <-]. simpl. do 2 (split; [reflexivity|]).
    apply (for_loop_preserves
             (fun st : list R * Z => length (fst st) = length (prefactors m)))
      in Hrun; [exact Hrun | | reflexivity].
    intros i [q k] st' Hbody Hq.
    eapply (assign_keeps_length _ i (Vec.read factors i) (q, k));
      [exact Hbody | exact Hq].
Qed.

Lemma do_calls_frame (cs : list call) :
  forall m m',
    do_calls cs m = Some m' ->
    d1dx1 m' = d1dx1 m /\ d1dy1 m' = d1dy1 m
    /\ length (prefactors m') = length (prefactors m).
Proof.
  induction cs as [|c cs IH]; intros m m'; simpl.
  - intros [= <-]. auto.
  - destruct (do_call c m) as [m1|] eqn:Hc; [|discriminate].
    bind_step. intros Hrest.
    destruct (do_call_frame _ _ _ Hc) as (Hx & Hy & Hl).
    destruct (IH _ _ Hrest) as (Hx' & Hy' & Hl').
    repeat split; congruence.
Qed.

(** The class invariant survives every sequence of calls that returns. *)
Lemma do_calls_sized (cs : list call) m m' :
  do_calls cs m = Some m' -> sized m -> sized m'.
Proof.
  intros Hrun Hm. destruct (do_calls_frame _ _ _ Hrun) as (Hx & Hy & Hl).
  unfold sized in *. rewrite Hx, Hy, Hl. exact Hm.
Qed.

(** C6: every call of any of the three [set_prefactors] overloads leaves
    the two stored operators [d1dx1] and [d1dy1] unchanged: for every input
    field, [d2dxdy] with unit prefactors computes the same before and after
    any sequence of [set_prefactors] calls. *)
Theorem set_prefactors_keeps_operators
    (action_2d : forall T : Type, Operator1D T ->
       nat -> nat -> Z -> bool -> T -> list R -> option (list R))
    (cs : list call) m m' :
  do_calls cs m = Some m' ->
  d1dx1 m' = d1dx1 m
  /\ d1dy1 m' = d1dy1 m
  /\ forall (u u' : MixedDerivative.t T1 T2) (field : list R),
       set_prefactors m 1 = Some u ->
       set_prefactors m' 1 = Some u' ->
       d2dxdy action_2d u' field = d2dxdy action_2d u field.
Proof.
  intros Hrun. destruct (do_calls_frame _ _ _ Hrun) as (Hx & Hy & Hl).
  split; [exact Hx|]. split; [exact Hy|].
  intros u u' field. rewrite !set_prefactors_scalar_fill, Hl.
  intros [= <-] [= <-].
  rewrite (with_prefactors_same_operators m m') by assumption.
  reflexivity.
Qed.

End Frame.

(** ** The 3 x 3 instance over the grid [0, 1, 2] *)

Section UnitGridInstance.

Local Open Scope R_scope.

Import band_diagonal_matrix MixedDerivative.

Lemma set_prefactors_scalar_everywhere_witness :
  sized unit3_instance
  /\ exists m' : MixedDerivative.t TriDiagonal TriDiagonal,
       set_prefactors unit3_instance 2 = Some m'
       /\ length (prefactors m') = (3 * 3)%nat
       /\ forall i : nat, (i < 3 * 3)%nat -> prefactors m' !! i = Some 2.
Proof.
  split; [apply constructor_sized|].
  exact (set_prefactors_scalar_everywhere unit3_instance 2
           (constructor_sized c2b1_unit3 c2b1_unit3)).
Defined.

Lemma set_prefactors_flat_short_witness :
  sized unit3_instance
  /\ (length [3; 4] < 3 * 3)%nat
  /\ exists m' : MixedDerivative.t TriDiagonal TriDiagonal,
       set_prefactors_flat unit3_instance [3; 4] = Some m'
       /\ length (prefactors m') = (3 * 3)%nat
       /\ (forall i : nat, (i < 2)%nat -> prefactors m' !! i = [3; 4] !! i)
       /\ (forall i : nat, (2 <= i)%nat ->
             prefactors m' !! i = prefactors unit3_instance !! i).
Proof.
  split; [apply constructor_sized|]. split; [simpl; lia|].
  apply (set_prefactors_flat_short unit3_instance [3; 4]
           (constructor_sized c2b1_unit3 c2b1_unit3)).
  simpl. lia.
Defined.

Lemma set_prefactors_keeps_operators_witness :
  exists m' : MixedDerivative.t TriDiagonal TriDiagonal,
    do_calls [Scalar 2; Flat [3; 4]; Outer [5; 6] [7; 8]] unit3_instance
    = Some m'
    /\ d1dx1 m' = c2b1_unit3
    /\ d1dy1 m' = c2b1_unit3.
Proof.
  eexists.
  assert (Hrun : do_calls [Scalar 2; Flat [3; 4]; Outer [5; 6] [7; 8]]
                   unit3_instance
                 = Some (with_prefactors unit3_instance
                           [5 * 8; 6 * 8; 2; 2; 2; 2; 2; 2; 2])).
  { cbv -[IZR Rmult c2b1_unit3]. reflexivity. }
  split; [exact Hrun|].
  destruct (set_prefactors_keeps_operators utility.action_2d _ _ _ Hrun)
    as (Hx & Hy & _).
  split; [exact Hx | exact Hy].
Defined.

End UnitGridInstance.

(** ** action_2d on a field of the right size *)

Section Action2d.

Local Open Scope nat_scope.

Import utility.

(** Tabulating a function whose results all have length [k]. *)
Lemma mapM_rows (f : nat -> option (list R)) (k : nat) :
  forall n start : nat,
    (forall i, start <= i < start + n ->
               exists w, f i = Some w /\ length w = k) ->
    exists rows : list (list R),
      mapM f (seq start n) = Some rows
      /\ length rows = n
      /\ Forall (fun r => length r = k) rows.
Proof.
  induction n as [|n IH]; intros start Hf.
  - exists []. repeat split. constructor.
  - destruct (Hf start) as (w & Hw & Hlen); [lia|].
    destruct (IH (S start)) as (rows & Hrows & Hn & Hall).
    { intros i Hi. apply Hf. lia. }
    exists (w :: rows). cbn [seq mapM]. rewrite Hw. bind_step.
    rewrite Hrows. cbn. repeat split; [lia|]. constructor; assumption.
Qed.

Lemma length_concat_rows (rows : list (list R)) (k : nat) :
  Forall (fun r => length r = k) rows ->
  length (concat rows) = length rows * k.
Proof.
  induction 1 as [|r rows Hr _ IH]; [reflexivity|].
  cbn [concat]. rewrite length_app, Hr, IH. simpl. reflexivity.
Qed.

Lemma length_flat_map_rows {A : Type} (g : A -> nat -> R) (n : nat)
    (l : list A) :
  length (flat_map (fun a => map (g a) (seq 0 n)) l) = length l * n.
Proof.
  induction l as [|a l IH]; [reflexivity|].
  cbn [flat_map]. rewrite length_app, length_map, length_seq, IH.
  simpl. reflexivity.
Qed.

Lemma length_slice_y (n_x n_y : nat) (func : list R) (ix : nat) :
  length func = n_x * n_y -> ix < n_x ->
  length (slice_y n_y func ix) = n_y.
Proof.
  intros Hf Hix. unfold slice_y. rewrite length_take, length_drop. nia.
Qed.

Lemma length_slice_x (n_x n_y : nat) (func : list R) (iy : nat) :
  length (slice_x n_x n_y func iy) = n_x.
Proof. unfold slice_x. rewrite length_map, length_seq. reflexivity. Qed.

Context {T : Type} `{LengthPreserving T}.

(** Along y: defined on every field of [n_x * n_y] entries, with a result
    of the same size. *)
Lemma along_y_defined (n_x n_y : nat) (op : T) (func : list R) :
  order op = n_y -> length func = n_x * n_y ->
  exists g : list R,
    along_y n_x n_y op func = Some g /\ length g = n_x * n_y.
Proof.
  intros Hop Hf. unfold along_y.
  destruct (mapM_rows (fun ix => action op (slice_y n_y func ix)) n_y n_x 0)
    as (rows & -> & Hn & Hall).
  { intros ix Hix. rewrite <- Hop. apply action_length.
    rewrite Hop. apply (length_slice_y n_x); [assumption | lia]. }
  bind_step. eexists. split; [reflexivity|].
  rewrite (length_concat_rows rows n_y Hall), Hn. reflexivity.
Qed.

(** Along x: likewise. *)
Lemma along_x_defined (n_x n_y : nat) (op : T) (func : list R) :
  order op = n_x -> length func = n_x * n_y ->
  exists g : list R,
    along_x n_x n_y op func = Some g /\ length g = n_x * n_y.
Proof.
  intros Hop Hf. unfold along_x.
  destruct (mapM_rows (fun iy => action op (slice_x n_x n_y func iy))
              n_x n_y 0) as (cols & -> & Hn & Hall).
  { intros iy Hiy. rewrite <- Hop. apply action_length.
    rewrite Hop. apply length_slice_x. }
  bind_step. eexists. split; [reflexivity|].
  rewrite length_flat_map_rows, length_seq. reflexivity.
Qed.

End Action2d.

(** ** MixedDerivative::d2dxdy *)

Section MixedAction.

Local Open Scope R_scope.

Import MixedDerivative.

(** The closing loop, [func[i] *= prefactors[i]], over vectors that both
    have the [n] entries the loop visits. *)
Lemma scale_loop (g pre : list R) (n : nat) :
  length g = n -> length pre = n ->
  exists out : list R,
    for_loop n 0
      (fun i func =>
         f ← Vec.read func i;
         p ← Vec.read pre i;
         Vec.write func i (f * p))
      g = Some out
    /\ row_upto g (fun k => coef g k * coef pre k) n n out.
Proof.
  intros Hg Hpre.
  apply (for_loop_inv
           (fun i func =>
              row_upto g (fun k => coef g k * coef pre k) n i func)).
  - rewrite <- Hg. apply row_upto_start.
  - intros i func Hi Hinv.
    rewrite (row_upto_read _ _ _ _ _ Hinv).
    change (g !! i) with (Vec.read g i).
    rewrite read_coef by lia. bind_step.
    rewrite read_coef by lia. bind_step.
    apply (row_upto_write g (fun k => coef g k * coef pre k) n i func);
      [assumption | lia].
Qed.

(** The closing loop reads [prefactors[i]] and [func[i]] for every
    [i < n_x * n_y] without a test of its own: a vector that is too short
    leaves the call without a defined result. *)
Lemma scale_loop_short (g pre : list R) (n : nat) :
  (length g < n)%nat -> length pre = n ->
  for_loop n 0
    (fun i func =>
       f ← Vec.read func i;
       p ← Vec.read pre i;
       Vec.write func i (f * p))
    g = None.
Proof.
  intros Hg Hpre.
  set (body := fun (i : nat) (func : list R) =>
       f ← Vec.read func i;
       p ← Vec.read pre i;
       Vec.write func i (f * p)).
  assert (Hgen : forall count start (func : list R),
            length func = length g ->
            (start <= length g)%nat ->
            (length g < start + count)%nat ->
            (start + count <= n)%nat ->
            for_loop count start body func = None).
  { induction count as [|c IH]; intros start func Hf Hs Hc Hn; [lia|].
    simpl. unfold body at 1.
    destruct (decide (start < length g)%nat) as [Hlt|Hge].
    - rewrite read_coef by lia. bind_step.
      rewrite read_coef by lia. bind_step.
      rewrite write_in_range by lia.
      apply IH; rewrite ?length_insert; lia.
    - unfold Vec.read. rewrite (lookup_ge_None_2 func start) by lia.
      reflexivity. }
  apply Hgen; lia.
Qed.

Context {T1 T2 : Type} {O1 : Operator1D T1} {O2 : Operator1D T2}
        {L1 : LengthPreserving T1} {L2 : LengthPreserving T2}.

Implicit Types m : MixedDerivative.t T1 T2.

(** C3: for every field of [n_x * n_y] entries, [d2dxdy(field)] returns a
    field of [n_x * n_y] entries whose entry at each index [i] is
    [prefactors[i]] times the entry [i] of the field obtained by applying
    the y-axis operator along the y-direction and then the x-axis operator
    along the x-direction. *)
Theorem d2dxdy_scaled_mixed_action m (field : list R) :
  sized m ->
  length field = (order (d1dx1 m) * order (d1dy1 m))%nat ->
  exists g out : list R,
    (utility.along_y (order (d1dx1 m)) (order (d1dy1 m)) (d1dy1 m) field
     ≫= utility.along_x (order (d1dx1 m)) (order (d1dy1 m)) (d1dx1 m))
    = Some g
    /\ d2dxdy utility.action_2d m field = Some out
    /\ length out = (order (d1dx1 m) * order (d1dy1 m))%nat
    /\ forall (i : nat) (p gi : R),
         prefactors m !! i = Some p -> g !! i = Some gi ->
         out !! i = Some (p * gi).
Proof.
  intros Hm Hfield. unfold sized in Hm.
  set (n_x := order (d1dx1 m)) in *. set (n_y := order (d1dy1 m)) in *.
  destruct (along_y_defined n_x n_y (d1dy1 m) field)
    as (gy & Hy & Hgy); [reflexivity | assumption |].
  destruct (along_x_defined n_x n_y (d1dx1 m) gy)
    as (g & Hx & Hg); [reflexivity | assumption |].
  destruct (scale_loop g (prefactors m) (n_x * n_y)) as (out & Hout & Hrow);
    [assumption | assumption |].
  exists g, out. split; [rewrite Hy; exact Hx|].
  split.
  { unfold d2dxdy, utility.action_2d. fold n_x n_y.
    rewrite decide_True by lia. rewrite decide_False by lia.
    rewrite decide_True by reflexivity. rewrite Hy. bind_step.
    rewrite decide_True by lia. rewrite decide_True by reflexivity.
    rewrite Hx. bind_step. exact Hout. }
  destruct Hrow as (Hlen & Hlo & _). split; [exact Hlen|].
  intros i p gi Hp Hgi.
  rewrite Hlo by (apply lookup_lt_Some in Hp; lia).
  unfold coef. rewrite Hp, Hgi. simpl. f_equal. ring.
Qed.

End MixedAction.

Section MixedActionGeneric.

Local Open Scope R_scope.

Import MixedDerivative.

Context {T1 T2 : Type} {O1 : Operator1D T1} {O2 : Operator1D T2}.

Variable action_2d :
  forall T : Type, Operator1D T ->
    nat -> nat -> Z -> bool -> T -> list R -> option (list R).

Implicit Types m : MixedDerivative.t T1 T2.

(** [d2dxdy] makes no test of the length of its argument: whenever the two
    [action_2d] calls return and hand back [n_x * n_y] entries, it returns a
    field, whatever the length of the field it was given. *)
Lemma d2dxdy_returns_with_action_2d m (field gy g : list R) :
  sized m ->
  action_2d T2 O2 (order (d1dy1 m)) (order (d1dx1 m)) 2 false (d1dy1 m) field
  = Some gy ->
  action_2d T1 O1 (order (d1dx1 m)) (order (d1dy1 m)) 1 false (d1dx1 m) gy
  = Some g ->
  length g = (order (d1dx1 m) * order (d1dy1 m))%nat ->
  exists out : list R,
    d2dxdy action_2d m field = Some out /\ length out = length g.
Proof.
  intros Hm Hy Hx Hg. unfold d2dxdy. rewrite Hy. bind_step.
  rewrite Hx. bind_step.
  destruct (scale_loop g (prefactors m)
              (order (d1dx1 m) * order (d1dy1 m))) as (out & -> & Hrow);
    [assumption | exact Hm |].
  exists out. split; [reflexivity|]. destruct Hrow as [-> _]. auto.
Qed.

(** Conversely the only failures of [d2dxdy] before its closing loop are
    those of [action_2d]. *)
Lemma d2dxdy_fails_with_action_2d m (field : list R) :
  action_2d T2 O2 (order (d1dy1 m)) (order (d1dx1 m)) 2 false (d1dy1 m) field
  = None ->
  d2dxdy action_2d m field = None.
Proof. intros Hy. unfold d2dxdy. rewrite Hy. reflexivity. Qed.

End MixedActionGeneric.

Section UnitGridMixedAction.

Local Open Scope R_scope.

Import band_diagonal_matrix MixedDerivative.

(** The field [f(x, y) = x * y] on the grid [0, 1, 2] squared has mixed
    derivative 1 at every cell. *)
Example d2dxdy_of_product :
  d2dxdy utility.action_2d (MixedDerivative c2b1_unit3 c2b1_unit3)
    [0; 0; 0; 0; 1; 2; 0; 2; 4]
  = Some [1; 1; 1; 1; 1; 1; 1; 1; 1].
Proof.
  cbv -[IZR Rplus Rmult Rminus Rdiv Ropp Rinv].
  repeat f_equal; lra.
Qed.

Lemma d2dxdy_scaled_mixed_action_witness :
  sized (MixedDerivative c2b1_unit3 c2b1_unit3)
  /\ length [0; 0; 0; 0; 1; 2; 0; 2; 4] = (3 * 3)%nat
  /\ exists g out : list R,
       (utility.along_y 3 3 c2b1_unit3 [0; 0; 0; 0; 1; 2; 0; 2; 4]
        ≫= utility.along_x 3 3 c2b1_unit3) = Some g
       /\ d2dxdy utility.action_2d (MixedDerivative c2b1_unit3 c2b1_unit3)
            [0; 0; 0; 0; 1; 2; 0; 2; 4] = Some out
       /\ length out = (3 * 3)%nat
       /\ forall (i : nat) (p gi : R),
            prefactors (MixedDerivative c2b1_unit3 c2b1_unit3) !! i = Some p ->
            g !! i = Some gi -> out !! i = Some (p * gi).
Proof.
  split; [apply constructor_sized|]. split; [reflexivity|].
  exact (d2dxdy_scaled_mixed_action
           (MixedDerivative c2b1_unit3 c2b1_unit3)
           [0; 0; 0; 0; 1; 2; 0; 2; 4]
           (constructor_sized c2b1_unit3 c2b1_unit3) eq_refl).
Defined.

End UnitGridMixedAction.

(** * Further properties of the grids *)

(** A loop that assigns every entry of a vector leaves the tabulation of
    the assigned values, whatever the vector held. *)
Lemma overwrite_all (c : nat -> R) (n : nat) (v : list R) :
  length v = n ->
  for_loop n 0 (fun i r => Vec.write r i (c i)) v = Some (map c (seq 0 n)).
Proof.
  intros Hv. destruct (fill_loop c n v) as (r & -> & Hr); [lia|].
  rewrite Hv in Hr. apply row_upto_full in Hr. rewrite Hr. reflexivity.
Qed.

Section GridShapes.

Local Open Scope R_scope.

(** X3: for [n_points >= 0], [grid::eigen::uniform] returns the entries of
    [grid::uniform], whatever the uninitialised vector held. *)
Theorem eigen_uniform_agrees (storage : nat -> R) (x_min x_max : R)
    (n_points : Z) :
  (0 <= n_points)%Z ->
  grid.eigen.uniform storage x_min x_max n_points
  = grid.uniform x_min x_max n_points.
Proof.
  intros Hn. rewrite uniform_tabulated by assumption.
  unfold grid.eigen.uniform. rewrite decide_False by lia. cbv zeta.
  apply overwrite_all. rewrite length_map, length_seq. reflexivity.
Qed.

Lemma eigen_uniform_agrees_witness :
  (0 <= 3)%Z
  /\ grid.eigen.uniform (fun k => INR k * 7) 0 1 3 = grid.uniform 0 1 3.
Proof.
  split; [lia|]. exact (eigen_uniform_agrees _ 0 1 3 ltac:(lia)).
Defined.

End GridShapes.

(** * Further properties of the Black-Scholes functions *)

Section BlackScholes.

Local Open Scope R_scope.

Variable cdf : R -> R.

(** The grid of prices, as the tabulation the loop leaves behind. *)
Lemma solution_full_prices (spatial_grid : list R)
    (rate sigma strike tau : R) :
  bs.call.solution_full cdf spatial_grid rate sigma strike tau
  = Some (map (fun s => bs.call.price cdf s rate sigma strike tau)
              spatial_grid).
Proof.
  unfold bs.call.solution_full. cbv zeta.
  set (n := length spatial_grid). set (zeros := Vec.make n 0).
  assert (Hz : length zeros = n)
    by (unfold zeros, Vec.make; apply length_replicate).
  destruct (for_loop_inv
    (fun i result =>
       row_upto zeros
         (fun k => bs.call.price cdf (coef spatial_grid k)
                     rate sigma strike tau) n i result)
    (fun i result =>
       s ← Vec.read spatial_grid i;
       Vec.write result i (bs.call.price cdf s rate sigma strike tau))
    n 0%nat zeros) as (out & -> & Hout).
  - pose proof (row_upto_start zeros
                  (fun k => bs.call.price cdf (coef spatial_grid k)
                              rate sigma strike tau)) as H.
    rewrite Hz in H. exact H.
  - intros i result Hi Hinv.
    rewrite read_coef by (fold n; lia). bind_step.
    apply (row_upto_write zeros
             (fun k => bs.call.price cdf (coef spatial_grid k)
                         rate sigma strike tau) n i result);
      [assumption | lia].
  - change (0 + n)%nat with (length spatial_grid) in Hout.
    apply row_upto_full in Hout. subst out. f_equal.
    apply (tabulate_coef
             (fun s => bs.call.price cdf s rate sigma strike tau)).
Qed.

(** X12: the closure of [bs::call::solution_func] prices every point of
    the first grid it is given, in order, and ignores the other grids; on no
    grid at all its read of [spatial_grid[0]] is out of range. *)
Theorem solution_func_first_grid (rate sigma strike tau : R) :
  (forall (grid0 : list R) (others : list (list R)),
     bs.call.solution_func cdf rate sigma strike tau (grid0 :: others)
     = Some (map (fun s => bs.call.price cdf s rate sigma strike tau)
                 grid0))
  /\ bs.call.solution_func cdf rate sigma strike tau [] = None.
Proof.
  split; [|reflexivity].
  intros grid0 others. unfold bs.call.solution_func. simpl.
  apply solution_full_prices.
Qed.

End BlackScholes.

Section PrefactorSigns.

Local Open Scope R_scope.

(** X13: in the result of [bs::pde::generator::prefactor] no entry of the
    third sequence, the coefficient of the second derivative, is negative,
    whatever the signs of [sigma] and of the grid coordinates. *)
Theorem diffusion_coefficient_nonnegative (rate sigma : R)
    (spatial_grid : list R) :
  exists c0 c1 c2 : list R,
    bs.pde.generator.prefactor rate sigma spatial_grid = Some [c0; c1; c2]
    /\ forall (i : nat) (x : R), c2 !! i = Some x -> 0 <= x.
Proof.
  do 3 eexists. split; [apply prefactor_rows|].
  intros i x Hx. rewrite list_lookup_fmap in Hx.
  destruct (spatial_grid !! i) as [s|]; [|discriminate].
  injection Hx as <-.
  pose proof (pow2_ge_0 (sigma * s)) as Hsq. lra.
Qed.

End PrefactorSigns.

(** * Further properties of MixedDerivative *)

Section PrefactorOverloads.

Local Open Scope R_scope.

Context {T1 T2 : Type} {O1 : Operator1D T1} {O2 : Operator1D T2}.

Import MixedDerivative.

Implicit Types m : MixedDerivative.t T1 T2.

Lemma with_own_prefactors m : with_prefactors m (prefactors m) = m.
Proof. destruct m. reflexivity. Qed.

(** X14: a flat sequence of exactly [n_x * n_y] entries is copied verbatim
    into the prefactor field, and the operators are kept. *)
Theorem set_prefactors_flat_verbatim m (factors : list R) :
  sized m ->
  length factors = (order (d1dx1 m) * order (d1dy1 m))%nat ->
  set_prefactors_flat m factors = Some (with_prefactors m factors).
Proof.
  intros Hm Hlen. unfold sized in Hm.
  destruct (set_prefactors_flat_front m factors) as (p & -> & Hp); [lia|].
  rewrite Hm, <- Hlen in Hp. apply row_upto_full in Hp. subst p.
  rewrite (tabulate_coef (fun x => x)), map_id. reflexivity.
Qed.

(** X16: with a non-empty [coef_y] and a [coef_x] no longer than the field,
    the two-vector overload writes, at each index [i] below the length of
    [coef_x], the product of [coef_x[i]] and the last entry of [coef_y], and
    leaves every other entry of the field as it was. *)
Theorem set_prefactors_xy_last_column m (coef_x coef_y : list R) :
  coef_y <> [] ->
  (length coef_x <= length (prefactors m))%nat ->
  exists m' : MixedDerivative.t T1 T2,
    set_prefactors_xy m coef_x coef_y = Some m'
    /\ d1dx1 m' = d1dx1 m /\ d1dy1 m' = d1dy1 m
    /\ length (prefactors m') = length (prefactors m)
    /\ (forall (i : nat) (cx cy : R),
          coef_x !! i = Some cx -> last coef_y = Some cy ->
          prefactors m' !! i = Some (cx * cy))
    /\ (forall i : nat, (length coef_x <= i)%nat ->
          prefactors m' !! i = prefactors m !! i).
Proof.
  intros Hy Hlen.
  destruct (set_prefactors_xy_rows m coef_x coef_y Hy Hlen)
    as (p & Hrun & Hl & Hlo & Hhi).
  exists (with_prefactors m p). split; [exact Hrun|]. simpl.
  do 3 (split; [auto|]). split; [|exact Hhi].
  intros i cx cy Hcx Hcy.
  assert (Hi : (i < length coef_x)%nat) by (eapply lookup_lt_Some; eauto).
  rewrite Hlo by lia. unfold coef. rewrite Hcx.
  rewrite last_lookup in Hcy.
  replace (length coef_y - 1)%nat with (Nat.pred (length coef_y)) by lia.
  rewrite Hcy. reflexivity.
Qed.

(** X17: with an empty [coef_y] the two-vector overload assigns nothing:
    the instance is returned as it was, however long [coef_x] is. *)
Theorem set_prefactors_xy_empty_y m (coef_x : list R) :
  set_prefactors_xy m coef_x [] = Some m.
Proof.
  unfold set_prefactors_xy.
  destruct (for_loop_inv
    (fun (_ : nat) (st : list R * Z) => st = (prefactors m, 0%Z))
    (fun i =>
       for_loop (length (@nil R)) 0
         (fun j '(p, index) =>
            cx ← Vec.read coef_x i;
            cy ← Vec.read [] j;
            p ← Vec.write p i (cx * cy);
            Some (p, (index + 1)%Z)))
    (length coef_x) 0%nat (prefactors m, 0%Z)) as (st & Hrun & ->).
  - reflexivity.
  - intros i st _ ->. eexists. split; reflexivity.
  - rewrite Hrun. bind_step. rewrite with_own_prefactors. reflexivity.
Qed.

(** X18: with a non-empty [coef_y], a [coef_x] longer than the prefactor
    field makes the inner loop write past the end of the field: the call
    has no defined result. *)
Theorem set_prefactors_xy_too_long m (coef_x coef_y : list R) :
  coef_y <> [] ->
  (length (prefactors m) < length coef_x)%nat ->
  set_prefactors_xy m coef_x coef_y = None.
Proof.
  intros Hy Hlen. unfold set_prefactors_xy.
  set (inner := fun (i : nat) =>
       for_loop (length coef_y) 0
         (fun j '((p, index) : list R * Z) =>
            cx ← Vec.read coef_x i;
            cy ← Vec.read coef_y j;
            p ← Vec.write p i (cx * cy);
            Some (p, (index + 1)%Z))).
  assert (Hgen : forall count start (p : list R) idx,
            length p = length (prefactors m) ->
            (start <= length p)%nat ->
            (length p < start + count)%nat ->
            (start + count <= length coef_x)%nat ->
            for_loop count start inner (p, idx) = None).
  { induction count as [|c IH]; intros start p idx Hp Hs Hc Hf; [lia|].
    simpl. unfold inner at 1.
    destruct (decide (start < length p)%nat) as [Hlt|Hge].
    - destruct (xy_inner_pass coef_x coef_y start p idx) as (idx' & ->);
        [lia | assumption |].
      apply IH; destruct (length coef_y); rewrite ?length_insert; lia.
    - destruct coef_y as [|y ys]; [contradiction|].
      simpl. rewrite read_coef by lia. bind_step.
      rewrite write_out_of_range by lia. reflexivity. }
  rewrite Hgen by lia. reflexivity.
Qed.

(** X19: every instance reached from the constructor by a sequence of
    [set_prefactors] calls that all return still has a prefactor field of
    [n_x * n_y] entries, for the orders of the operators it was built
    from. *)
Theorem prefactor_field_keeps_size (d1dx1_ : T1) (d1dy1_ : T2)
    (cs : list call) (m' : MixedDerivative.t T1 T2) :
  do_calls cs (MixedDerivative d1dx1_ d1dy1_) = Some m' ->
  length (prefactors m') = (order d1dx1_ * order d1dy1_)%nat.
Proof.
  intros Hrun.
  destruct (do_calls_frame _ _ _ Hrun) as (_ & _ & ->).
  apply (constructor_sized d1dx1_ d1dy1_).
Qed.

End PrefactorOverloads.

Section PrefactorOverloadsAtUnitGrid.

Local Open Scope R_scope.

Import band_diagonal_matrix MixedDerivative.

Lemma set_prefactors_flat_verbatim_witness :
  sized unit3_instance
  /\ length [1; 2; 3; 4; 5; 6; 7; 8; 9] = (3 * 3)%nat
  /\ set_prefactors_flat unit3_instance [1; 2; 3; 4; 5; 6; 7; 8; 9]
     = Some (with_prefactors unit3_instance [1; 2; 3; 4; 5; 6; 7; 8; 9]).
Proof.
  split; [apply constructor_sized|]. split; [reflexivity|].
  exact (set_prefactors_flat_verbatim unit3_instance
           [1; 2; 3; 4; 5; 6; 7; 8; 9]
           (constructor_sized c2b1_unit3 c2b1_unit3) eq_refl).
Defined.

Lemma set_prefactors_flat_overrun_witness :
  (length (prefactors unit3_instance)
   < length [1; 2; 3; 4; 5; 6; 7; 8; 9; 10])%nat
  /\ set_prefactors_flat unit3_instance [1; 2; 3; 4; 5; 6; 7; 8; 9; 10]
     = None.
Proof.
  split; [simpl; lia|].
  apply (set_prefactors_flat_overrun unit3_instance
           [1; 2; 3; 4; 5; 6; 7; 8; 9; 10]).
  simpl. lia.
Defined.

Lemma set_prefactors_xy_last_column_witness :
  [7; 11; 13] <> []
  /\ (length [2; 3; 5] <= length (prefactors unit3_instance))%nat
  /\ exists m' : MixedDerivative.t TriDiagonal TriDiagonal,
       set_prefactors_xy unit3_instance [2; 3; 5] [7; 11; 13] = Some m'
       /\ prefactors m' !! 1%nat = Some (3 * 13)
       /\ prefactors m' !! 4%nat = Some 1.
Proof.
  split; [discriminate|]. split; [simpl; lia|].
  destruct (set_prefactors_xy_last_column unit3_instance
              [2; 3; 5] [7; 11; 13])
    as (m' & Hrun & _ & _ & _ & Hlo & Hhi); [discriminate | simpl; lia |].
  exists m'. split; [exact Hrun|]. split.
  - apply Hlo; reflexivity.
  - rewrite Hhi by (simpl; lia). reflexivity.
Defined.

Lemma set_prefactors_xy_too_long_witness :
  [7] <> []
  /\ (length (prefactors unit3_instance)
      < length [1; 2; 3; 4; 5; 6; 7; 8; 9; 10])%nat
  /\ set_prefactors_xy unit3_instance [1; 2; 3; 4; 5; 6; 7; 8; 9; 10] [7]
     = None.
Proof.
  split; [discriminate|]. split; [simpl; lia|].
  apply (set_prefactors_xy_too_long unit3_instance
           [1; 2; 3; 4; 5; 6; 7; 8; 9; 10] [7]); [discriminate|].
  simpl. lia.
Defined.

Lemma prefactor_field_keeps_size_witness :
  exists m' : MixedDerivative.t TriDiagonal TriDiagonal,
    do_calls [Outer [5; 6] [7; 8]; Flat [3; 4]; Scalar 2]
      (MixedDerivative c2b1_unit3 c2b1_unit3) = Some m'
    /\ length (prefactors m') = (3 * 3)%nat.
Proof.
  eexists.
  assert (Hrun : do_calls [Outer [5; 6] [7; 8]; Flat [3; 4]; Scalar 2]
                   (MixedDerivative c2b1_unit3 c2b1_unit3)
                 = Some (with_prefactors unit3_instance
                           [2; 2; 2; 2; 2; 2; 2; 2; 2])).
  { cbv -[IZR Rmult c2b1_unit3]. reflexivity. }
  split; [exact Hrun|].
  exact (prefactor_field_keeps_size c2b1_unit3 c2b1_unit3 _ _ Hrun).
Defined.

End PrefactorOverloadsAtUnitGrid.

(** ** d2dxdy, whatever action_2d is *)

Section ScalingLoop.

Local Open Scope R_scope.

(** The closing loop over vectors that have at least the [n] entries it
    visits: the first [n] entries are scaled, the others are not touched. *)
Lemma scale_loop_prefix (g pre : list R) (n : nat) :
  (n <= length g)%nat -> (n <= length pre)%nat ->
  exists out : list R,
    for_loop n 0
      (fun i func =>
         f ← Vec.read func i;
         p ← Vec.read pre i;
         Vec.write func i (f * p))
      g = Some out
    /\ row_upto g (fun k => coef g k * coef pre k) (length g) n out.
Proof.
  intros Hg Hpre.
  apply (for_loop_inv
           (fun i func =>
              row_upto g (fun k => coef g k * coef pre k) (length g) i
                func)).
  - apply row_upto_start.
  - intros i func Hi Hinv.
    rewrite (row_upto_read _ _ _ _ _ Hinv).
    change (g !! i) with (Vec.read g i).
    rewrite read_coef by lia. bind_step.
    rewrite read_coef by lia. bind_step.
    apply (row_upto_write g (fun k => coef g k * coef pre k)
             (length g) i func); [assumption | lia].
Qed.

End ScalingLoop.

Section MixedActionAnyHelper.

Local Open Scope R_scope.

Import MixedDerivative.

Context {T1 T2 : Type} {O1 : Operator1D T1} {O2 : Operator1D T2}.

Variable action_2d :
  forall T : Type, Operator1D T ->
    nat -> nat -> Z -> bool -> T -> list R -> option (list R).

Implicit Types m : MixedDerivative.t T1 T2.

(** X20: whatever [action_2d] is, when its pass along y returns [gy] and
    its pass along x on [gy] returns [g], with at least [n_x * n_y] entries
    in [g] and in the prefactor field, [d2dxdy] returns [g] with each of
    its first [n_x * n_y] entries multiplied by the prefactor of the same
    index, and the entries beyond left as they are. *)
Theorem d2dxdy_scales_second_pass m (field gy g : list R) :
  action_2d T2 O2 (order (d1dy1 m)) (order (d1dx1 m)) 2 false (d1dy1 m) field
  = Some gy ->
  action_2d T1 O1 (order (d1dx1 m)) (order (d1dy1 m)) 1 false (d1dx1 m) gy
  = Some g ->
  (order (d1dx1 m) * order (d1dy1 m) <= length g)%nat ->
  (order (d1dx1 m) * order (d1dy1 m) <= length (prefactors m))%nat ->
  exists out : list R,
    d2dxdy action_2d m field = Some out
    /\ length out = length g
    /\ (forall (i : nat) (x p : R),
          (i < order (d1dx1 m) * order (d1dy1 m))%nat ->
          g !! i = Some x -> prefactors m !! i = Some p ->
          out !! i = Some (x * p))
    /\ (forall i : nat,
          (order (d1dx1 m) * order (d1dy1 m) <= i)%nat ->
          out !! i = g !! i).
Proof.
  intros Hy Hx Hg Hp. unfold d2dxdy. rewrite Hy. bind_step.
  rewrite Hx. bind_step.
  destruct (scale_loop_prefix g (prefactors m)
              (order (d1dx1 m) * order (d1dy1 m)))
    as (out & -> & Hlen & Hlo & Hhi); [assumption | assumption |].
  exists out. split; [reflexivity|]. split; [exact Hlen|].
  split; [|exact Hhi].
  intros i x p Hi Hgx Hpx. rewrite Hlo by lia.
  unfold coef. rewrite Hgx, Hpx. reflexivity.
Qed.

(** X21: whatever [action_2d] is, when its second pass returns fewer than
    [n_x * n_y] entries the closing loop of [d2dxdy] reads past the end of
    them: the call has no defined result. *)
Theorem d2dxdy_short_second_pass m (field gy g : list R) :
  sized m ->
  action_2d T2 O2 (order (d1dy1 m)) (order (d1dx1 m)) 2 false (d1dy1 m) field
  = Some gy ->
  action_2d T1 O1 (order (d1dx1 m)) (order (d1dy1 m)) 1 false (d1dx1 m) gy
  = Some g ->
  (length g < order (d1dx1 m) * order (d1dy1 m))%nat ->
  d2dxdy action_2d m field = None.
Proof.
  intros Hm Hy Hx Hg. unfold d2dxdy. rewrite Hy. bind_step.
  rewrite Hx. bind_step.
  apply scale_loop_short; [exact Hg | exact Hm].
Qed.

(** X22: on an instance fresh from the constructor, [d2dxdy] returns what
    the second [action_2d] pass returns, unchanged, when that has
    [n_x * n_y] entries. *)
Theorem d2dxdy_fresh_instance (d1dx1_ : T1) (d1dy1_ : T2)
    (field gy g : list R) :
  action_2d T2 O2 (order d1dy1_) (order d1dx1_) 2 false d1dy1_ field
  = Some gy ->
  action_2d T1 O1 (order d1dx1_) (order d1dy1_) 1 false d1dx1_ gy
  = Some g ->
  length g = (order d1dx1_ * order d1dy1_)%nat ->
  d2dxdy action_2d (MixedDerivative d1dx1_ d1dy1_) field = Some g.
Proof.
  intros Hy Hx Hg. unfold d2dxdy. simpl. rewrite Hy. bind_step.
  rewrite Hx. bind_step.
  set (n := (order d1dx1_ * order d1dy1_)%nat) in *.
  destruct (scale_loop_prefix g (Vec.make n 1) n)
    as (out & -> & Hlen & Hlo & Hhi).
  { lia. }
  { unfold Vec.make. rewrite length_replicate. lia. }
  f_equal. apply list_eq. intros i.
  destruct (decide (i < n)%nat) as [Hi|Hi].
  - rewrite Hlo by lia. unfold coef, Vec.make.
    rewrite lookup_replicate_2 by exact Hi.
    destruct (lookup_lt_is_Some_2 g i) as [x ->]; [lia|].
    simpl. f_equal. ring.
  - apply Hhi. lia.
Qed.

End MixedActionAnyHelper.

Section MixedActionWitnesses.

Local Open Scope R_scope.

Import band_diagonal_matrix MixedDerivative.

(** A helper that hands back only the first entry of the field. *)
Lemma d2dxdy_short_second_pass_witness :
  sized unit3_instance
  /\ d2dxdy (fun _ _ _ _ _ _ _ func => Some (take 1 func)) unit3_instance
       [0; 0; 0; 0; 1; 2; 0; 2; 4]
     = None.
Proof.
  split; [apply constructor_sized|].
  apply (d2dxdy_short_second_pass
           (fun _ _ _ _ _ _ _ func => Some (take 1 func)) unit3_instance
           [0; 0; 0; 0; 1; 2; 0; 2; 4] [0] [0]
           (constructor_sized c2b1_unit3 c2b1_unit3) eq_refl eq_refl).
  simpl. lia.
Defined.

Lemma d2dxdy_scales_second_pass_witness :
  exists gy g : list R,
    utility.action_2d TriDiagonal _ 3 3 2 false c2b1_unit3
      [0; 0; 0; 0; 1; 2; 0; 2; 4] = Some gy
    /\ utility.action_2d TriDiagonal _ 3 3 1 false c2b1_unit3 gy = Some g
    /\ (3 * 3 <= length g)%nat
    /\ exists out : list R,
         d2dxdy utility.action_2d
           (with_prefactors unit3_instance [2; 2; 2; 2; 2; 2; 2; 2; 2])
           [0; 0; 0; 0; 1; 2; 0; 2; 4] = Some out
         /\ length out = length g
         /\ (forall (i : nat) (x p : R),
               (i < 3 * 3)%nat -> g !! i = Some x ->
               [2; 2; 2; 2; 2; 2; 2; 2; 2] !! i = Some p ->
               out !! i = Some (x * p))
         /\ (forall i : nat, (3 * 3 <= i)%nat -> out !! i = g !! i).
Proof.
  do 2 eexists.
  split; [cbv -[IZR Rplus Rmult Rminus Rdiv Ropp Rinv]; reflexivity|].
  split; [cbv -[IZR Rplus Rmult Rminus Rdiv Ropp Rinv]; reflexivity|].
  split; [simpl; lia|].
  refine (d2dxdy_scales_second_pass utility.action_2d
            (with_prefactors unit3_instance [2; 2; 2; 2; 2; 2; 2; 2; 2])
            _ _ _ _ _ _ _).
  - cbv -[IZR Rplus Rmult Rminus Rdiv Ropp Rinv]. reflexivity.
  - cbv -[IZR Rplus Rmult Rminus Rdiv Ropp Rinv]. reflexivity.
  - simpl. lia.
  - simpl. lia.
Defined.

Lemma d2dxdy_fresh_instance_witness :
  exists gy g : list R,
    utility.action_2d TriDiagonal _ 3 3 2 false c2b1_unit3
      [0; 0; 0; 0; 1; 2; 0; 2; 4] = Some gy
    /\ utility.action_2d TriDiagonal _ 3 3 1 false c2b1_unit3 gy = Some g
    /\ length g = (3 * 3)%nat
    /\ d2dxdy utility.action_2d (MixedDerivative c2b1_unit3 c2b1_unit3)
         [0; 0; 0; 0; 1; 2; 0; 2; 4] = Some g.
Proof.
  do 2 eexists.
  split; [cbv -[IZR Rplus Rmult Rminus Rdiv Ropp Rinv]; reflexivity|].
  split; [cbv -[IZR Rplus Rmult Rminus Rdiv Ropp Rinv]; reflexivity|].
  split; [reflexivity|].
  refine (d2dxdy_fresh_instance utility.action_2d c2b1_unit3 c2b1_unit3
            _ _ _ _ _ _).
  - cbv -[IZR Rplus Rmult Rminus Rdiv Ropp Rinv]. reflexivity.
  - cbv -[IZR Rplus Rmult Rminus Rdiv Ropp Rinv]. reflexivity.
  - reflexivity.
Defined.

End MixedActionWitnesses.
